(** * Beam Stress Analyzer: section properties, first moment and stresses

    A shallow embedding of the numeric core of [src/App.jsx]: the memoised
    [sectionProps] and [Q_point] computations and the four stress formulas
    that follow them.

    JavaScript numbers are IEEE 754 binary64 values.  Two readings of the
    arithmetic are used:

    - the geometric formulas are read over the real numbers ([R]), which is
      the arithmetic the formulas of the specification are written in;
    - the stress formulas use only [*], [/] and [Math.abs], which binary64
      defines exactly; they are written once, over an abstract number type,
      and read both over [R] and over [spec_float] at precision 53 and
      maximal exponent 1024, where dividing by zero yields an infinity or a
      NaN.  The I-beam case of [Q_point], which uses no [Math.pow], is
      written over binary64 as well: its inner guard compares the ordinate
      with a rounded difference, so what each arm returns is stated there,
      and it is run there on concrete inputs.

    The unit selection with its conversion to SI and back, and the two
    earlier versions of the component ([src/unnamed/part_000] and
    [src/unnamed/part_001]), are read over [R] as well.

    Over [R] a quotient by zero carries no information (the library's
    [/ 0] is [0]); every statement over [R] that depends on the value of a
    quotient assumes dimensions that make the divisor positive, and division
    by zero is studied in binary64 only. *)

From Stdlib Require Import Reals Lra Lia ZArith String Bool.
From Stdlib Require Import SpecFloat.

Open Scope string_scope.

(* ================================================================= *)
(** ** Stress evaluation, generic in the arithmetic *)

Section StressEvaluator.

Variable num : Type.
Variables (mul div : num -> num -> num) (Math_abs : num -> num).

(** The object returned by [sectionProps]. *)
Record SectionProps : Type := mkProps {
  area : num;
  inertia : num;
  polarInertia : num;
  outerRadius : num;
  shearThickness : num
}.

(** The loads, already converted to SI units. *)
Record Loads : Type := mkLoads {
  forceSI : num;
  momentSI : num;
  torqueSI : num;
  shearForceSI : num
}.

(** [const axialStressSI = forceSI / sectionProps.area;] *)
Definition axialStressSI (l : Loads) (p : SectionProps) : num :=
  div (forceSI l) (area p).

(** [const bendingStressSI = (momentSI * pointYSI) / sectionProps.inertia;] *)
Definition bendingStressSI (l : Loads) (p : SectionProps) (pointYSI : num) : num :=
  div (mul (momentSI l) pointYSI) (inertia p).

(** [const torsionalShearSI =
      (torqueSI * Math.abs(pointYSI)) / sectionProps.polarInertia;] *)
Definition torsionalShearSI (l : Loads) (p : SectionProps) (pointYSI : num) : num :=
  div (mul (torqueSI l) (Math_abs pointYSI)) (polarInertia p).

(** [const transverseShearSI =
      (shearForceSI * Q_point) /
      (sectionProps.inertia * sectionProps.shearThickness);] *)
Definition transverseShearSI (l : Loads) (p : SectionProps) (Q_point : num) : num :=
  div (mul (shearForceSI l) Q_point) (mul (inertia p) (shearThickness p)).

(** The four stresses taken together. *)
Record StressResult : Type := mkStress {
  axial : num;
  bending : num;
  torsionalShear : num;
  transverseShear : num
}.

Definition computeStresses
    (p : SectionProps) (Q_point : num) (l : Loads) (pointYSI : num) : StressResult :=
  {| axial := axialStressSI l p;
     bending := bendingStressSI l p pointYSI;
     torsionalShear := torsionalShearSI l p pointYSI;
     transverseShear := transverseShearSI l p Q_point |}.

End StressEvaluator.

Arguments mkProps {num}.
Arguments area {num}.
Arguments inertia {num}.
Arguments polarInertia {num}.
Arguments outerRadius {num}.
Arguments shearThickness {num}.
Arguments mkLoads {num}.
Arguments forceSI {num}.
Arguments momentSI {num}.
Arguments torqueSI {num}.
Arguments shearForceSI {num}.
Arguments mkStress {num}.
Arguments axial {num}.
Arguments bending {num}.
Arguments torsionalShear {num}.
Arguments transverseShear {num}.
Arguments computeStresses {num}.

(* ================================================================= *)
(** ** The geometry, over the reals *)

Open Scope R_scope.

(** [Math.pow(x, y)] on the reals.  An integral exponent is a repeated
    product or quotient, whatever the sign of the base; otherwise the power
    of a positive base is [exp (y * ln x)].  The remaining cases are [0]
    here: in JavaScript a zero base with a positive fractional exponent gives
    [0] as well, while a negative base with a fractional exponent gives NaN
    (the guards of [Q_point] keep every base non-negative). *)
Definition Math_pow (x y : R) : R :=
  if Req_dec_T y (IZR (Int_part y)) then powerRZ x (Int_part y)
  else if Rlt_dec 0 x then Rpower x y
  else 0.

Definition Math_PI : R := PI.

(** The SI-converted dimension inputs of the component; every variant's
    fields are present at once, [sectionType] selects which are read. *)
Record Dims : Type := mkDims {
  rectWidthSI : R;
  rectHeightSI : R;
  circleDiameterSI : R;
  hollowOuterSI : R;
  hollowInnerSI : R;
  iBeamDepthSI : R;
  iBeamFlangeWidthSI : R;
  iBeamFlangeThickSI : R;
  iBeamWebThickSI : R
}.

(** [let area = 0, inertia = 0, polarInertia = 0, outerRadius = 0,
        shearThickness = 0;] *)
Definition initialProps : SectionProps R := mkProps 0 0 0 0 0.

(** [sectionProps], lines 75-127. *)
Definition sectionProps (sectionType : string) (d : Dims) : SectionProps R :=
  if sectionType =? "rectangle" then
    {| area := rectWidthSI d * rectHeightSI d;
       inertia := (rectWidthSI d * Math_pow (rectHeightSI d) 3) / 12;
       polarInertia := (rectWidthSI d * Math_pow (rectHeightSI d) 3) / 3;
       outerRadius := rectHeightSI d / 2;
       shearThickness := rectWidthSI d |}
  else if sectionType =? "circle" then
    let r := circleDiameterSI d / 2 in
    {| area := Math_PI * Math_pow r 2;
       inertia := (Math_PI * Math_pow r 4) / 4;
       polarInertia := (Math_PI * Math_pow r 4) / 2;
       outerRadius := r;
       shearThickness := circleDiameterSI d |}
  else if sectionType =? "hollowCircle" then
    let R_o := hollowOuterSI d in
    let R_i := hollowInnerSI d in
    if Rge_dec R_i R_o then
      {| area := 0;
         inertia := 0;
         polarInertia := 0;
         outerRadius := R_o;
         shearThickness := 0 |}
    else
      {| area := Math_PI * (Math_pow R_o 2 - Math_pow R_i 2);
         inertia := (Math_PI / 4) * (Math_pow R_o 4 - Math_pow R_i 4);
         polarInertia := (Math_PI / 2) * (Math_pow R_o 4 - Math_pow R_i 4);
         outerRadius := R_o;
         shearThickness := R_o - R_i |}
  else if sectionType =? "iBeam" then
    let h := iBeamDepthSI d in
    let bf := iBeamFlangeWidthSI d in
    let tf := iBeamFlangeThickSI d in
    let tw := iBeamWebThickSI d in
    let inertia :=
      (bf * Math_pow h 3 - (bf - tw) * Math_pow (h - 2 * tf) 3) / 12 in
    {| area := 2 * bf * tf + tw * (h - 2 * tf);
       inertia := inertia;
       polarInertia := inertia;
       outerRadius := h / 2;
       shearThickness := tw |}
  else initialProps.

(** [Q_point], lines 144-186. *)
Definition Q_point (sectionType : string) (d : Dims) (pointYSI : R) : R :=
  let yAbs := Rabs pointYSI in
  if sectionType =? "rectangle" then
    let a := rectHeightSI d / 2 in
    if Rgt_dec yAbs a then 0
    else (rectWidthSI d / 2) * (Math_pow a 2 - Math_pow pointYSI 2)
  else if sectionType =? "circle" then
    let r := circleDiameterSI d / 2 in
    if Rgt_dec yAbs r then 0
    else (2 / 3) * Math_pow (r * r - pointYSI * pointYSI) 1.5
  else if sectionType =? "hollowCircle" then
    let R_o := hollowOuterSI d in
    let R_i := hollowInnerSI d in
    if Rgt_dec yAbs R_o then 0
    else if Rle_dec yAbs R_i then
      (2 / 3) *
      (Math_pow (R_o * R_o - pointYSI * pointYSI) 1.5 -
       Math_pow (R_i * R_i - pointYSI * pointYSI) 1.5)
    else (2 / 3) * Math_pow (R_o * R_o - pointYSI * pointYSI) 1.5
  else if sectionType =? "iBeam" then
    let h := iBeamDepthSI d in
    let tf := iBeamFlangeThickSI d in
    let bf := iBeamFlangeWidthSI d in
    let tw := iBeamWebThickSI d in
    let halfDepth := h / 2 in
    if Rgt_dec yAbs halfDepth then 0
    else if Rle_dec yAbs (halfDepth - tf) then
      let Q_flange := bf * tf in
      let webArea := tw * (halfDepth - tf - yAbs) in
      let webCentroid := (halfDepth - tf + yAbs) / 2 in
      Q_flange + webArea * webCentroid
    else
      let flangeHeightAbove := halfDepth - yAbs in
      bf * flangeHeightAbove * (flangeHeightAbove / 2)
  else 0.

(** The stress formulas read over the reals. *)
Definition stressesR : SectionProps R -> R -> Loads R -> R -> StressResult R :=
  computeStresses Rmult Rdiv Rabs.

(** *** Valid, non-degenerate dimensions of each variant *)

Definition valid_rectangle (d : Dims) : Prop :=
  0 < rectWidthSI d /\ 0 < rectHeightSI d.

Definition valid_circle (d : Dims) : Prop :=
  0 < circleDiameterSI d.

Definition valid_hollowCircle (d : Dims) : Prop :=
  0 < hollowInnerSI d /\ hollowInnerSI d < hollowOuterSI d.

Definition valid_iBeam (d : Dims) : Prop :=
  0 < iBeamDepthSI d /\ 0 < iBeamFlangeWidthSI d /\
  0 < iBeamFlangeThickSI d /\ 0 < iBeamWebThickSI d /\
  2 * iBeamFlangeThickSI d < iBeamDepthSI d.

Definition valid_dims (sectionType : string) (d : Dims) : Prop :=
  (sectionType = "rectangle" /\ valid_rectangle d) \/
  (sectionType = "circle" /\ valid_circle d) \/
  (sectionType = "hollowCircle" /\ valid_hollowCircle d) \/
  (sectionType = "iBeam" /\ valid_iBeam d).

(** The tags the two memoised computations recognise. *)
Definition recognized (sectionType : string) : Prop :=
  sectionType = "rectangle" \/ sectionType = "circle" \/
  sectionType = "hollowCircle" \/ sectionType = "iBeam".

(** The power [x^1.5] of a non-negative real, as [x * sqrt x]. *)
Definition pow_3_2 (x : R) : R := x * sqrt x.

(** The arms of [Q_point], each as the source writes it.  The arm taken
    outside the section is the constant [0]. *)
Definition rectangle_arm (d : Dims) (pointYSI : R) : R :=
  let a := rectHeightSI d / 2 in
  (rectWidthSI d / 2) * (Math_pow a 2 - Math_pow pointYSI 2).

Definition circle_arm (d : Dims) (pointYSI : R) : R :=
  let r := circleDiameterSI d / 2 in
  (2 / 3) * Math_pow (r * r - pointYSI * pointYSI) 1.5.

(** Hollow circle, point at the height of the bore: [yAbs <= R_i]. *)
Definition hollow_bore_arm (d : Dims) (pointYSI : R) : R :=
  let R_o := hollowOuterSI d in
  let R_i := hollowInnerSI d in
  (2 / 3) *
  (Math_pow (R_o * R_o - pointYSI * pointYSI) 1.5 -
   Math_pow (R_i * R_i - pointYSI * pointYSI) 1.5).

(** Hollow circle, point above the bore: [R_i < yAbs <= R_o]. *)
Definition hollow_ring_arm (d : Dims) (pointYSI : R) : R :=
  let R_o := hollowOuterSI d in
  (2 / 3) * Math_pow (R_o * R_o - pointYSI * pointYSI) 1.5.

(** I-beam, point in the web ([yAbs <= halfDepth - tf]) and point in the
    flange, as functions of [yAbs]. *)
Definition iBeam_web_arm (d : Dims) (yAbs : R) : R :=
  let halfDepth := iBeamDepthSI d / 2 in
  let Q_flange := iBeamFlangeWidthSI d * iBeamFlangeThickSI d in
  let webArea := iBeamWebThickSI d * (halfDepth - iBeamFlangeThickSI d - yAbs) in
  let webCentroid := (halfDepth - iBeamFlangeThickSI d + yAbs) / 2 in
  Q_flange + webArea * webCentroid.

Definition iBeam_flange_arm (d : Dims) (yAbs : R) : R :=
  let halfDepth := iBeamDepthSI d / 2 in
  let flangeHeightAbove := halfDepth - yAbs in
  iBeamFlangeWidthSI d * flangeHeightAbove * (flangeHeightAbove / 2).

(** Dimension sets used as concrete inputs; the fields of the variants
    that are not selected are never read. *)
Definition iBeam_dims (h bf tf tw : R) : Dims :=
  {| rectWidthSI := 1; rectHeightSI := 2; circleDiameterSI := 2;
     hollowOuterSI := 2; hollowInnerSI := 1;
     iBeamDepthSI := h; iBeamFlangeWidthSI := bf;
     iBeamFlangeThickSI := tf; iBeamWebThickSI := tw |}.

Definition hollow_dims (R_o R_i : R) : Dims :=
  {| rectWidthSI := 1; rectHeightSI := 2; circleDiameterSI := 2;
     hollowOuterSI := R_o; hollowInnerSI := R_i;
     iBeamDepthSI := 8; iBeamFlangeWidthSI := 4;
     iBeamFlangeThickSI := 1; iBeamWebThickSI := 1 |}.

Definition rect_dims (b h : R) : Dims :=
  {| rectWidthSI := b; rectHeightSI := h; circleDiameterSI := 2;
     hollowOuterSI := 2; hollowInnerSI := 1;
     iBeamDepthSI := 8; iBeamFlangeWidthSI := 4;
     iBeamFlangeThickSI := 1; iBeamWebThickSI := 1 |}.

Close Scope R_scope.

(* ================================================================= *)
(** ** Binary64 arithmetic *)

Module Binary64.

Definition prec : Z := 53.
Definition emax : Z := 1024.

Definition float : Type := spec_float.

Definition mul : float -> float -> float := SFmul prec emax.
Definition div : float -> float -> float := SFdiv prec emax.
Definition add : float -> float -> float := SFadd prec emax.
Definition sub : float -> float -> float := SFsub prec emax.
Definition abs : float -> float := SFabs.

(** [x > y] and [x <= y]; both are [false] when an operand is NaN. *)
Definition gtb (x y : float) : bool := SFltb y x.
Definition leb (x y : float) : bool := SFleb x y.

(** The number written [0] in the source. *)
Definition zero : float := S754_zero false.

(** An integer literal, rounded to binary64 (exact below 2^53). *)
Definition of_Z (z : Z) : float := binary_normalize prec emax z 0 false.

(** [Number.isFinite]: neither an infinity nor NaN. *)
Definition isFinite (x : float) : bool :=
  match x with
  | S754_zero _ | S754_finite _ _ _ => true
  | S754_infinity _ | S754_nan => false
  end.

(** Either signed zero. *)
Definition isZero (x : float) : bool :=
  match x with
  | S754_zero _ => true
  | _ => false
  end.

(** [Infinity], [-Infinity] or [NaN]. *)
Definition nonFinite (x : float) : Prop :=
  x = S754_infinity false \/ x = S754_infinity true \/ x = S754_nan.

Definition stresses
  : SectionProps float -> float -> Loads float -> float -> StressResult float :=
  computeStresses mul div abs.

(** The I-beam case of [Q_point], lines 167-184: it uses no [Math.pow],
    so binary64 determines it completely. *)
Definition Q_point_iBeam (h tf bf tw pointYSI : float) : float :=
  let yAbs := abs pointYSI in
  let halfDepth := div h (of_Z 2) in
  if gtb yAbs halfDepth then zero
  else if leb yAbs (sub halfDepth tf) then
    let Q_flange := mul bf tf in
    let webArea := mul tw (sub (sub halfDepth tf) yAbs) in
    let webCentroid := div (add (sub halfDepth tf) yAbs) (of_Z 2) in
    add Q_flange (mul webArea webCentroid)
  else
    let flangeHeightAbove := sub halfDepth yAbs in
    mul (mul bf flangeHeightAbove) (div flangeHeightAbove (of_Z 2)).

(** What [sectionProps] returns in the [R_i >= R_o] arm of the hollow
    circle: every field is the literal [0] except [outerRadius]. *)
Definition degenerateHollowProps (R_o : float) : SectionProps float :=
  {| area := zero; inertia := zero; polarInertia := zero;
     outerRadius := R_o; shearThickness := zero |}.

End Binary64.

(* ================================================================= *)
(** ** The analysis as a whole *)

Open Scope R_scope.

(** The four stresses at the ordinate [pointYSI] of a section, from the SI
    dimensions and loads: [sectionProps], [Q_point] and the stress formulas
    chained as the component chains them. *)
Definition stressesAt
    (sectionType : string) (d : Dims) (l : Loads R) (pointYSI : R) : StressResult R :=
  stressesR (sectionProps sectionType d) (Q_point sectionType d pointYSI) l pointYSI.

(** Every dimension multiplied by [k]. *)
Definition scale_dims (k : R) (d : Dims) : Dims :=
  {| rectWidthSI := k * rectWidthSI d;
     rectHeightSI := k * rectHeightSI d;
     circleDiameterSI := k * circleDiameterSI d;
     hollowOuterSI := k * hollowOuterSI d;
     hollowInnerSI := k * hollowInnerSI d;
     iBeamDepthSI := k * iBeamDepthSI d;
     iBeamFlangeWidthSI := k * iBeamFlangeWidthSI d;
     iBeamFlangeThickSI := k * iBeamFlangeThickSI d;
     iBeamWebThickSI := k * iBeamWebThickSI d |}.

Definition circle_dims (diameter : R) : Dims :=
  {| rectWidthSI := 1; rectHeightSI := 2; circleDiameterSI := diameter;
     hollowOuterSI := 2; hollowInnerSI := 1;
     iBeamDepthSI := 8; iBeamFlangeWidthSI := 4;
     iBeamFlangeThickSI := 1; iBeamWebThickSI := 1 |}.

(** *** Units, lines 7-70 and 217-220 *)

Module App.

(** The state of the component: the selected units and the values entered,
    which are in the selected units. *)
Record State : Type := mkState {
  forceUnit : string;
  distanceUnit : string;
  pressureUnit : string;
  beamLength : R;
  force : R;
  moment : R;
  torque : R;
  shearForce : R;
  sectionType : string;
  rectWidth : R;
  rectHeight : R;
  circleDiameter : R;
  hollowOuter : R;
  hollowInner : R;
  iBeamDepth : R;
  iBeamFlangeWidth : R;
  iBeamFlangeThick : R;
  iBeamWebThick : R;
  pointY : R
}.

(** [const forceFactor = forceUnit === "kN" ? 1000 : 1;] *)
Definition forceFactor (s : State) : R :=
  if forceUnit s =? "kN" then 1000 else 1.

(** [const distanceFactor = distanceUnit === "mm" ? 0.001 : 1;] *)
Definition distanceFactor (s : State) : R :=
  if distanceUnit s =? "mm" then 0.001 else 1.

(** [const pressureFactor = pressureUnit === "MPa" ? 1e6 : 1;] *)
Definition pressureFactor (s : State) : R :=
  if pressureUnit s =? "MPa" then 1000000 else 1.

Definition beamLengthSI (s : State) : R := beamLength s * distanceFactor s.

(** [forceSI], [momentSI], [torqueSI] and [shearForceSI]. *)
Definition loadsSI (s : State) : Loads R :=
  {| forceSI := force s * forceFactor s;
     momentSI := moment s * forceFactor s * distanceFactor s;
     torqueSI := torque s * forceFactor s * distanceFactor s;
     shearForceSI := shearForce s * forceFactor s |}.

(** [rectWidthSI] ... [iBeamWebThickSI]. *)
Definition dimsSI (s : State) : Dims :=
  {| rectWidthSI := rectWidth s * distanceFactor s;
     rectHeightSI := rectHeight s * distanceFactor s;
     circleDiameterSI := circleDiameter s * distanceFactor s;
     hollowOuterSI := hollowOuter s * distanceFactor s;
     hollowInnerSI := hollowInner s * distanceFactor s;
     iBeamDepthSI := iBeamDepth s * distanceFactor s;
     iBeamFlangeWidthSI := iBeamFlangeWidth s * distanceFactor s;
     iBeamFlangeThickSI := iBeamFlangeThick s * distanceFactor s;
     iBeamWebThickSI := iBeamWebThick s * distanceFactor s |}.

Definition pointYSI (s : State) : R := pointY s * distanceFactor s.

(** The four stresses in SI units, lines 205-214. *)
Definition stressesSI (s : State) : StressResult R :=
  stressesAt (sectionType s) (dimsSI s) (loadsSI s) (pointYSI s).

(** [axialStressDisplay] ... [transverseShearDisplay], lines 217-220. *)
Definition stressesDisplay (s : State) : StressResult R :=
  {| axial := axial (stressesSI s) / pressureFactor s;
     bending := bending (stressesSI s) / pressureFactor s;
     torsionalShear := torsionalShear (stressesSI s) / pressureFactor s;
     transverseShear := transverseShear (stressesSI s) / pressureFactor s |}.

(** The values entered, read as they stand, without conversion. *)
Definition enteredDims (s : State) : Dims :=
  {| rectWidthSI := rectWidth s;
     rectHeightSI := rectHeight s;
     circleDiameterSI := circleDiameter s;
     hollowOuterSI := hollowOuter s;
     hollowInnerSI := hollowInner s;
     iBeamDepthSI := iBeamDepth s;
     iBeamFlangeWidthSI := iBeamFlangeWidth s;
     iBeamFlangeThickSI := iBeamFlangeThick s;
     iBeamWebThickSI := iBeamWebThick s |}.

Definition enteredLoads (s : State) : Loads R :=
  {| forceSI := force s; momentSI := moment s; torqueSI := torque s;
     shearForceSI := shearForce s |}.

(** The same physical input entered in millimetres: the unit is ["mm"] and
    every length is a thousand times the length in metres; so are the two
    moments, which are entered in force unit times distance unit. *)
Definition in_mm (s : State) : State :=
  {| forceUnit := forceUnit s;
     distanceUnit := "mm";
     pressureUnit := pressureUnit s;
     beamLength := 1000 * beamLength s;
     force := force s;
     moment := 1000 * moment s;
     torque := 1000 * torque s;
     shearForce := shearForce s;
     sectionType := sectionType s;
     rectWidth := 1000 * rectWidth s;
     rectHeight := 1000 * rectHeight s;
     circleDiameter := 1000 * circleDiameter s;
     hollowOuter := 1000 * hollowOuter s;
     hollowInner := 1000 * hollowInner s;
     iBeamDepth := 1000 * iBeamDepth s;
     iBeamFlangeWidth := 1000 * iBeamFlangeWidth s;
     iBeamFlangeThick := 1000 * iBeamFlangeThick s;
     iBeamWebThick := 1000 * iBeamWebThick s;
     pointY := 1000 * pointY s |}.

(** The same physical input entered in kilonewtons. *)
Definition in_kN (s : State) : State :=
  {| forceUnit := "kN";
     distanceUnit := distanceUnit s;
     pressureUnit := pressureUnit s;
     beamLength := beamLength s;
     force := force s / 1000;
     moment := moment s / 1000;
     torque := torque s / 1000;
     shearForce := shearForce s / 1000;
     sectionType := sectionType s;
     rectWidth := rectWidth s;
     rectHeight := rectHeight s;
     circleDiameter := circleDiameter s;
     hollowOuter := hollowOuter s;
     hollowInner := hollowInner s;
     iBeamDepth := iBeamDepth s;
     iBeamFlangeWidth := iBeamFlangeWidth s;
     iBeamFlangeThick := iBeamFlangeThick s;
     iBeamWebThick := iBeamWebThick s;
     pointY := pointY s |}.

(** The initial state of the component (the arguments of [useState]). *)
Definition initial : State :=
  {| forceUnit := "N"; distanceUnit := "m"; pressureUnit := "Pa";
     beamLength := 1; force := 1000; moment := 1000; torque := 1000;
     shearForce := 500;
     sectionType := "rectangle";
     rectWidth := 0.05; rectHeight := 0.1;
     circleDiameter := 0.08;
     hollowOuter := 0.08; hollowInner := 0.04;
     iBeamDepth := 0.2; iBeamFlangeWidth := 0.1;
     iBeamFlangeThick := 0.02; iBeamWebThick := 0.01;
     pointY := 0 |}.

End App.

(** *** The version with rectangle and solid circle only
    ([src/unnamed/part_000]); every input is in SI units. *)

Module Part000.

Record State : Type := mkState {
  beamLength : R;
  force : R;
  moment : R;
  torque : R;
  shearForce : R;
  sectionType : string;
  rectWidth : R;
  rectHeight : R;
  diameter : R;
  pointY : R
}.

(** [sectionProps], lines 36-58. *)
Definition sectionProps (s : State) : SectionProps R :=
  if sectionType s =? "rectangle" then
    {| area := rectWidth s * rectHeight s;
       inertia := (rectWidth s * Math_pow (rectHeight s) 3) / 12;
       polarInertia := (rectWidth s * Math_pow (rectHeight s) 3) / 3;
       outerRadius := rectHeight s / 2;
       shearThickness := rectWidth s |}
  else if sectionType s =? "circle" then
    {| area := (Math_PI * Math_pow (diameter s) 2) / 4;
       inertia := (Math_PI * Math_pow (diameter s) 4) / 64;
       polarInertia := (Math_PI * Math_pow (diameter s) 4) / 32;
       outerRadius := diameter s / 2;
       shearThickness := diameter s |}
  else initialProps.

(** [Q_point], lines 69-79. *)
Definition Q_point (s : State) : R :=
  if sectionType s =? "rectangle" then
    let a := rectHeight s / 2 in
    if Rgt_dec (Rabs (pointY s)) a then 0
    else (rectWidth s / 2) * (Math_pow a 2 - Math_pow (pointY s) 2)
  else if sectionType s =? "circle" then
    let r := diameter s / 2 in
    if Rgt_dec (Rabs (pointY s)) r then 0
    else (2 / 3) * Math_pow (r * r - pointY s * pointY s) 1.5
  else 0.

Definition loads (s : State) : Loads R :=
  {| forceSI := force s; momentSI := moment s; torqueSI := torque s;
     shearForceSI := shearForce s |}.

(** [axialStress], [bendingStress], [torsionalShear], [transverseShear],
    lines 86-98. *)
Definition stresses (s : State) : StressResult R :=
  stressesR (sectionProps s) (Q_point s) (loads s) (pointY s).

(** The dimensions of a state, as the dimension inputs of the final
    version; the fields that this version does not have are [0]. *)
Definition dims (s : State) : Dims :=
  {| rectWidthSI := rectWidth s; rectHeightSI := rectHeight s;
     circleDiameterSI := diameter s;
     hollowOuterSI := 0; hollowInnerSI := 0;
     iBeamDepthSI := 0; iBeamFlangeWidthSI := 0;
     iBeamFlangeThickSI := 0; iBeamWebThickSI := 0 |}.

End Part000.

(** *** The version with the hollow circle and without the I-beam
    ([src/unnamed/part_001]); every input is in SI units. *)

Module Part001.

Record State : Type := mkState {
  beamLength : R;
  force : R;
  moment : R;
  torque : R;
  shearForce : R;
  sectionType : string;
  rectWidth : R;
  rectHeight : R;
  circleDiameter : R;
  hollowOuter : R;
  hollowInner : R;
  pointY : R
}.

(** [sectionProps], lines 36-76. *)
Definition sectionProps (s : State) : SectionProps R :=
  if sectionType s =? "rectangle" then
    {| area := rectWidth s * rectHeight s;
       inertia := (rectWidth s * Math_pow (rectHeight s) 3) / 12;
       polarInertia := (rectWidth s * Math_pow (rectHeight s) 3) / 3;
       outerRadius := rectHeight s / 2;
       shearThickness := rectWidth s |}
  else if sectionType s =? "circle" then
    let r := circleDiameter s / 2 in
    {| area := Math_PI * Math_pow r 2;
       inertia := (Math_PI * Math_pow r 4) / 4;
       polarInertia := (Math_PI * Math_pow r 4) / 2;
       outerRadius := r;
       shearThickness := circleDiameter s |}
  else if sectionType s =? "hollowCircle" then
    let R_o := hollowOuter s in
    let R_i := hollowInner s in
    if Rge_dec R_i R_o then
      {| area := 0;
         inertia := 0;
         polarInertia := 0;
         outerRadius := R_o;
         shearThickness := 0 |}
    else
      {| area := Math_PI * (Math_pow R_o 2 - Math_pow R_i 2);
         inertia := (Math_PI / 4) * (Math_pow R_o 4 - Math_pow R_i 4);
         polarInertia := (Math_PI / 2) * (Math_pow R_o 4 - Math_pow R_i 4);
         outerRadius := R_o;
         shearThickness := R_o - R_i |}
  else initialProps.

(** [Q_point], lines 90-115. *)
Definition Q_point (s : State) : R :=
  if sectionType s =? "rectangle" then
    let a := rectHeight s / 2 in
    if Rgt_dec (Rabs (pointY s)) a then 0
    else (rectWidth s / 2) * (Math_pow a 2 - Math_pow (pointY s) 2)
  else if sectionType s =? "circle" then
    let r := circleDiameter s / 2 in
    if Rgt_dec (Rabs (pointY s)) r then 0
    else (2 / 3) * Math_pow (r * r - pointY s * pointY s) 1.5
  else if sectionType s =? "hollowCircle" then
    let R_o := hollowOuter s in
    let R_i := hollowInner s in
    if Rgt_dec (Rabs (pointY s)) R_o then 0
    else if Rle_dec (Rabs (pointY s)) R_i then
      (2 / 3) *
      (Math_pow (R_o * R_o - pointY s * pointY s) 1.5 -
       Math_pow (R_i * R_i - pointY s * pointY s) 1.5)
    else (2 / 3) * Math_pow (R_o * R_o - pointY s * pointY s) 1.5
  else 0.

Definition loads (s : State) : Loads R :=
  {| forceSI := force s; momentSI := moment s; torqueSI := torque s;
     shearForceSI := shearForce s |}.

(** [axialStress], [bendingStress], [torsionalShear], [transverseShear],
    lines 130-139. *)
Definition stresses (s : State) : StressResult R :=
  stressesR (sectionProps s) (Q_point s) (loads s) (pointY s).

Definition dims (s : State) : Dims :=
  {| rectWidthSI := rectWidth s; rectHeightSI := rectHeight s;
     circleDiameterSI := circleDiameter s;
     hollowOuterSI := hollowOuter s; hollowInnerSI := hollowInner s;
     iBeamDepthSI := 0; iBeamFlangeWidthSI := 0;
     iBeamFlangeThickSI := 0; iBeamWebThickSI := 0 |}.

End Part001.

Close Scope R_scope.

(* ================================================================= *)
(** ** [Math.pow] at the exponents the source uses *)

Open Scope R_scope.

Lemma Int_part_IZR (z : Z) : Int_part (IZR z) = z.
Proof. symmetry. apply Int_part_spec. lra. Qed.

Lemma Math_pow_int (x : R) (z : Z) : Math_pow x (IZR z) = powerRZ x z.
Proof.
  unfold Math_pow. rewrite Int_part_IZR.
  destruct (Req_dec_T (IZR z) (IZR z)) as [_ | H]; [reflexivity | contradiction].
Qed.

Lemma Math_pow_2 (x : R) : Math_pow x 2 = x * x.
Proof. rewrite Math_pow_int. simpl. lra. Qed.

Lemma Math_pow_3 (x : R) : Math_pow x 3 = x * x * x.
Proof. rewrite Math_pow_int. simpl. lra. Qed.

Lemma Math_pow_4 (x : R) : Math_pow x 4 = x * x * x * x.
Proof. rewrite Math_pow_int. simpl. lra. Qed.

Lemma Int_part_1_5 : Int_part 1.5 = 1%Z.
Proof. symmetry. apply Int_part_spec. lra. Qed.

Lemma Math_pow_1_5_pos (x : R) : 0 < x -> Math_pow x 1.5 = Rpower x 1.5.
Proof.
  intros Hx. unfold Math_pow. rewrite Int_part_1_5.
  destruct (Req_dec_T 1.5 1) as [H | _]; [lra |].
  destruct (Rlt_dec 0 x) as [_ | H]; [reflexivity | contradiction].
Qed.

Lemma Math_pow_1_5_nonpos (x : R) : x <= 0 -> Math_pow x 1.5 = 0.
Proof.
  intros Hx. unfold Math_pow. rewrite Int_part_1_5.
  destruct (Req_dec_T 1.5 1) as [H | _]; [lra |].
  destruct (Rlt_dec 0 x) as [H | _]; [lra | reflexivity].
Qed.

(** On a positive real, [pow_3_2] is the real power of exponent 1.5. *)
Lemma pow_3_2_Rpower (x : R) : 0 < x -> pow_3_2 x = Rpower x 1.5.
Proof.
  intros Hx. unfold pow_3_2.
  replace 1.5 with (1 + / 2) by lra.
  rewrite Rpower_plus, Rpower_1, Rpower_sqrt by assumption. reflexivity.
Qed.

Lemma pow_3_2_0 : pow_3_2 0 = 0.
Proof. unfold pow_3_2. rewrite sqrt_0. lra. Qed.

Lemma Math_pow_1_5 (x : R) : 0 <= x -> Math_pow x 1.5 = pow_3_2 x.
Proof.
  intros [Hx | <-].
  - rewrite Math_pow_1_5_pos, pow_3_2_Rpower by assumption. reflexivity.
  - rewrite Math_pow_1_5_nonpos, pow_3_2_0 by lra. reflexivity.
Qed.

Lemma pow_3_2_nonneg (x : R) : 0 <= x -> 0 <= pow_3_2 x.
Proof.
  intros Hx. unfold pow_3_2. apply Rmult_le_pos; [assumption | apply sqrt_pos].
Qed.

Lemma pow_3_2_le (x y : R) : 0 <= x -> x <= y -> pow_3_2 x <= pow_3_2 y.
Proof.
  intros Hx Hxy. unfold pow_3_2.
  apply Rmult_le_compat; try assumption.
  - apply sqrt_pos.
  - now apply sqrt_le_1_alt.
Qed.

(** Settles the guards of [sectionProps] and [Q_point] once the ordinate and
    the dimensions are known well enough for linear arithmetic. *)
Ltac settle_guard :=
  match goal with
  | |- context [Rgt_dec ?a ?b] => destruct (Rgt_dec a b); try lra
  | |- context [Rle_dec ?a ?b] => destruct (Rle_dec a b); try lra
  | |- context [Rge_dec ?a ?b] => destruct (Rge_dec a b); try lra
  end.

(** Squares and absolute values. *)
Lemma Rabs_mul_self (y : R) : Rabs y * Rabs y = y * y.
Proof. unfold Rabs. destruct (Rcase_abs y); lra. Qed.

Lemma Rabs_sqr_le (y a : R) : Rabs y <= a -> y * y <= a * a.
Proof.
  intros H. pose proof (Rabs_pos y) as Hp.
  rewrite <- (Rabs_mul_self y). nra.
Qed.

Lemma Rabs_sqr_lt (y a : R) : 0 <= a -> a < Rabs y -> a * a < y * y.
Proof.
  intros Ha H. rewrite <- (Rabs_mul_self y). nra.
Qed.

(* ================================================================= *)
(** ** [sectionProps], variant by variant *)

Lemma sectionProps_rectangle (d : Dims) :
  sectionProps "rectangle" d =
  {| area := rectWidthSI d * rectHeightSI d;
     inertia := rectWidthSI d * (rectHeightSI d) ^ 3 / 12;
     polarInertia := rectWidthSI d * (rectHeightSI d) ^ 3 / 3;
     outerRadius := rectHeightSI d / 2;
     shearThickness := rectWidthSI d |}.
Proof.
  unfold sectionProps; simpl. rewrite Math_pow_3.
  f_equal; field.
Qed.

Lemma sectionProps_circle (d : Dims) :
  sectionProps "circle" d =
  {| area := PI * (circleDiameterSI d / 2) ^ 2;
     inertia := PI * (circleDiameterSI d / 2) ^ 4 / 4;
     polarInertia := PI * (circleDiameterSI d / 2) ^ 4 / 2;
     outerRadius := circleDiameterSI d / 2;
     shearThickness := circleDiameterSI d |}.
Proof.
  unfold sectionProps, Math_PI; simpl. rewrite Math_pow_2, Math_pow_4.
  f_equal; field.
Qed.

Lemma sectionProps_hollow_degenerate (d : Dims) :
  hollowInnerSI d >= hollowOuterSI d ->
  sectionProps "hollowCircle" d =
  {| area := 0; inertia := 0; polarInertia := 0;
     outerRadius := hollowOuterSI d; shearThickness := 0 |}.
Proof.
  intros H. unfold sectionProps; simpl.
  destruct (Rge_dec (hollowInnerSI d) (hollowOuterSI d)) as [_ | Hn];
    [reflexivity | contradiction].
Qed.

Lemma sectionProps_hollow_regular (d : Dims) :
  hollowInnerSI d < hollowOuterSI d ->
  sectionProps "hollowCircle" d =
  {| area := PI * ((hollowOuterSI d) ^ 2 - (hollowInnerSI d) ^ 2);
     inertia := PI / 4 * ((hollowOuterSI d) ^ 4 - (hollowInnerSI d) ^ 4);
     polarInertia := PI / 2 * ((hollowOuterSI d) ^ 4 - (hollowInnerSI d) ^ 4);
     outerRadius := hollowOuterSI d;
     shearThickness := hollowOuterSI d - hollowInnerSI d |}.
Proof.
  intros H. unfold sectionProps, Math_PI; simpl.
  destruct (Rge_dec (hollowInnerSI d) (hollowOuterSI d)) as [Hge | _]; [lra |].
  rewrite !Math_pow_2, !Math_pow_4. f_equal; field.
Qed.

Lemma sectionProps_iBeam (d : Dims) :
  let h := iBeamDepthSI d in
  let bf := iBeamFlangeWidthSI d in
  let tf := iBeamFlangeThickSI d in
  let tw := iBeamWebThickSI d in
  sectionProps "iBeam" d =
  {| area := 2 * bf * tf + tw * (h - 2 * tf);
     inertia := (bf * h ^ 3 - (bf - tw) * (h - 2 * tf) ^ 3) / 12;
     polarInertia := (bf * h ^ 3 - (bf - tw) * (h - 2 * tf) ^ 3) / 12;
     outerRadius := h / 2;
     shearThickness := tw |}.
Proof.
  unfold sectionProps; simpl. rewrite !Math_pow_3. f_equal; field.
Qed.

Lemma sectionProps_unrecognized (sectionType : string) (d : Dims) :
  ~ recognized sectionType -> sectionProps sectionType d = initialProps.
Proof.
  intros H. unfold recognized in H. unfold sectionProps.
  destruct (String.eqb_spec sectionType "rectangle"); [tauto |].
  destruct (String.eqb_spec sectionType "circle"); [tauto |].
  destruct (String.eqb_spec sectionType "hollowCircle"); [tauto |].
  destruct (String.eqb_spec sectionType "iBeam"); [tauto | reflexivity].
Qed.

(** The outer radius of a valid section is positive, and so are its area
    and its two moments of inertia. *)
Lemma cube_diff_pos (h w : R) : 0 < w -> w < h -> 0 < h ^ 3 - w ^ 3.
Proof.
  intros Hw Hwh.
  replace (h ^ 3 - w ^ 3) with ((h - w) * (h * h + h * w + w * w)) by ring.
  apply Rmult_lt_0_compat; nra.
Qed.

Lemma fourth_diff_pos (a b : R) : 0 < b -> b < a -> 0 < a ^ 4 - b ^ 4.
Proof.
  intros Hb Hba.
  replace (a ^ 4 - b ^ 4) with ((a - b) * ((a + b) * (a * a + b * b))) by ring.
  apply Rmult_lt_0_compat; [lra |].
  apply Rmult_lt_0_compat; nra.
Qed.

Lemma iBeam_inertia_pos (d : Dims) :
  valid_iBeam d ->
  0 < (iBeamFlangeWidthSI d * iBeamDepthSI d ^ 3 -
       (iBeamFlangeWidthSI d - iBeamWebThickSI d) *
       (iBeamDepthSI d - 2 * iBeamFlangeThickSI d) ^ 3) / 12.
Proof.
  intros (Hh & Hbf & Htf & Htw & Hweb).
  set (h := iBeamDepthSI d) in *. set (bf := iBeamFlangeWidthSI d) in *.
  set (tf := iBeamFlangeThickSI d) in *. set (tw := iBeamWebThickSI d) in *.
  assert (Hw : 0 < h - 2 * tf) by lra.
  pose proof (cube_diff_pos h (h - 2 * tf) Hw ltac:(lra)) as Hc.
  assert (Hw3 : 0 < (h - 2 * tf) ^ 3) by (apply pow_lt; assumption).
  replace (bf * h ^ 3 - (bf - tw) * (h - 2 * tf) ^ 3)
    with (bf * (h ^ 3 - (h - 2 * tf) ^ 3) + tw * (h - 2 * tf) ^ 3) by ring.
  assert (0 < bf * (h ^ 3 - (h - 2 * tf) ^ 3)) by (apply Rmult_lt_0_compat; assumption).
  assert (0 < tw * (h - 2 * tf) ^ 3) by (apply Rmult_lt_0_compat; assumption).
  lra.
Qed.

Lemma sectionProps_positive (sectionType : string) (d : Dims) :
  valid_dims sectionType d ->
  0 < area (sectionProps sectionType d) /\
  0 < inertia (sectionProps sectionType d) /\
  0 < polarInertia (sectionProps sectionType d) /\
  0 < outerRadius (sectionProps sectionType d).
Proof.
  pose proof PI_RGT_0 as Hpi.
  intros [(-> & Hb & Hh) | [(-> & Hd) | [(-> & Hi & Hio) | (-> & Hv)]]].
  - rewrite sectionProps_rectangle; simpl.
    assert (0 < rectHeightSI d ^ 3) by (apply pow_lt; assumption).
    assert (0 < rectWidthSI d * rectHeightSI d ^ 3)
      by (apply Rmult_lt_0_compat; assumption).
    repeat split; try lra. apply Rmult_lt_0_compat; assumption.
  - rewrite sectionProps_circle; simpl. unfold valid_circle in Hd.
    assert (Hr : 0 < circleDiameterSI d / 2) by lra.
    assert (0 < PI * (circleDiameterSI d / 2) ^ 2)
      by (apply Rmult_lt_0_compat; [assumption | apply pow_lt; assumption]).
    assert (0 < PI * (circleDiameterSI d / 2) ^ 4)
      by (apply Rmult_lt_0_compat; [assumption | apply pow_lt; assumption]).
    repeat split; lra.
  - rewrite sectionProps_hollow_regular by assumption; simpl.
    pose proof (fourth_diff_pos _ _ Hi Hio) as H4.
    assert (H2 : 0 < hollowOuterSI d ^ 2 - hollowInnerSI d ^ 2) by nra.
    repeat split; try lra; apply Rmult_lt_0_compat; lra.
  - rewrite sectionProps_iBeam; simpl.
    pose proof (iBeam_inertia_pos d Hv) as HI.
    destruct Hv as (Hh & Hbf & Htf & Htw & Hweb).
    repeat split; try assumption; try lra.
    assert (0 < iBeamFlangeWidthSI d * iBeamFlangeThickSI d)
      by (apply Rmult_lt_0_compat; assumption).
    assert (0 < iBeamWebThickSI d * (iBeamDepthSI d - 2 * iBeamFlangeThickSI d))
      by (apply Rmult_lt_0_compat; lra).
    lra.
Qed.

(* ================================================================= *)
(** ** [Q_point], variant by variant *)

Lemma pow_2_mul (x : R) : x ^ 2 = x * x.
Proof. ring. Qed.

Lemma Q_point_rectangle_eq (d : Dims) (y : R) :
  Q_point "rectangle" d y =
  if Rgt_dec (Rabs y) (rectHeightSI d / 2) then 0
  else rectWidthSI d / 2 * ((rectHeightSI d / 2) ^ 2 - y ^ 2).
Proof.
  unfold Q_point; simpl. rewrite !Math_pow_2.
  destruct (Rgt_dec _ _); [reflexivity | ring].
Qed.

Lemma Q_point_circle_eq (d : Dims) (y : R) :
  Q_point "circle" d y =
  if Rgt_dec (Rabs y) (circleDiameterSI d / 2) then 0
  else 2 / 3 * pow_3_2 ((circleDiameterSI d / 2) ^ 2 - y ^ 2).
Proof.
  unfold Q_point; simpl.
  destruct (Rgt_dec _ _) as [Hgt | Hle]; [reflexivity |].
  apply Rnot_gt_le, Rabs_sqr_le in Hle.
  rewrite Math_pow_1_5 by lra. do 2 f_equal. ring.
Qed.

Lemma Q_point_hollowCircle_eq (d : Dims) (y : R) :
  Q_point "hollowCircle" d y =
  if Rgt_dec (Rabs y) (hollowOuterSI d) then 0
  else if Rle_dec (Rabs y) (hollowInnerSI d) then
    2 / 3 * (pow_3_2 (hollowOuterSI d ^ 2 - y ^ 2) -
             pow_3_2 (hollowInnerSI d ^ 2 - y ^ 2))
  else 2 / 3 * pow_3_2 (hollowOuterSI d ^ 2 - y ^ 2).
Proof.
  rewrite !pow_2_mul. unfold Q_point; simpl.
  destruct (Rgt_dec _ _) as [Hgt | Ho]; [reflexivity |].
  apply Rnot_gt_le, Rabs_sqr_le in Ho.
  destruct (Rle_dec _ _) as [Hi | Hi].
  - apply Rabs_sqr_le in Hi.
    rewrite !Math_pow_1_5 by lra. reflexivity.
  - rewrite Math_pow_1_5 by lra. reflexivity.
Qed.

Lemma Q_point_iBeam_eq (d : Dims) (y : R) :
  Q_point "iBeam" d y =
  if Rgt_dec (Rabs y) (iBeamDepthSI d / 2) then 0
  else if Rle_dec (Rabs y) (iBeamDepthSI d / 2 - iBeamFlangeThickSI d)
       then iBeam_web_arm d (Rabs y)
       else iBeam_flange_arm d (Rabs y).
Proof. reflexivity. Qed.

Lemma Q_point_unrecognized (sectionType : string) (d : Dims) (y : R) :
  ~ recognized sectionType -> Q_point sectionType d y = 0.
Proof.
  intros H. unfold recognized in H. unfold Q_point.
  destruct (String.eqb_spec sectionType "rectangle"); [tauto |].
  destruct (String.eqb_spec sectionType "circle"); [tauto |].
  destruct (String.eqb_spec sectionType "hollowCircle"); [tauto |].
  destruct (String.eqb_spec sectionType "iBeam"); [tauto | reflexivity].
Qed.

(** [Q_point] reads its ordinate through [Math.abs] and squares only. *)
Lemma Q_point_even (sectionType : string) (d : Dims) (y : R) :
  Q_point sectionType d (- y) = Q_point sectionType d y.
Proof.
  unfold Q_point. rewrite Rabs_Ropp, !Math_pow_2.
  replace (- y * - y) with (y * y) by ring. reflexivity.
Qed.

(** Beyond the outer radius [Q_point] is zero. *)
Lemma Q_point_outside (sectionType : string) (d : Dims) (y : R) :
  Rabs y > outerRadius (sectionProps sectionType d) ->
  Q_point sectionType d y = 0.
Proof.
  unfold Q_point, sectionProps.
  destruct (sectionType =? "rectangle"); simpl.
  { intros H. destruct (Rgt_dec _ _); [reflexivity | contradiction]. }
  destruct (sectionType =? "circle"); simpl.
  { intros H. destruct (Rgt_dec _ _); [reflexivity | contradiction]. }
  destruct (sectionType =? "hollowCircle"); simpl.
  { intros H.
    assert (Ho : Rabs y > hollowOuterSI d)
      by (destruct (Rge_dec _ _) in H; exact H).
    destruct (Rgt_dec _ _); [reflexivity | contradiction]. }
  destruct (sectionType =? "iBeam"); simpl.
  { intros H. destruct (Rgt_dec _ _); [reflexivity | contradiction]. }
  reflexivity.
Qed.

(** At the outer radius of a valid section [Q_point] is zero as well. *)
Lemma Q_point_at_outerRadius (sectionType : string) (d : Dims) :
  valid_dims sectionType d ->
  Q_point sectionType d (outerRadius (sectionProps sectionType d)) = 0.
Proof.
  intros [(-> & Hb & Hh) | [(-> & Hd) | [(-> & Hi & Hio) | (-> & Hv)]]].
  - rewrite sectionProps_rectangle; simpl outerRadius.
    rewrite Q_point_rectangle_eq, Rabs_pos_eq by lra.
    destruct (Rgt_dec _ _); [reflexivity | ring].
  - rewrite sectionProps_circle; simpl outerRadius. unfold valid_circle in Hd.
    rewrite Q_point_circle_eq, Rabs_pos_eq by lra.
    destruct (Rgt_dec _ _); [reflexivity |].
    replace (_ ^ 2 - _ ^ 2) with 0 by ring. rewrite pow_3_2_0. ring.
  - rewrite sectionProps_hollow_regular by assumption; simpl outerRadius.
    rewrite Q_point_hollowCircle_eq, Rabs_pos_eq by lra.
    destruct (Rgt_dec _ _); [reflexivity |].
    destruct (Rle_dec _ _); [lra |].
    replace (_ ^ 2 - _ ^ 2) with 0 by ring. rewrite pow_3_2_0. ring.
  - destruct Hv as (Hh & Hbf & Htf & Htw & Hweb).
    rewrite sectionProps_iBeam; simpl outerRadius.
    rewrite Q_point_iBeam_eq, Rabs_pos_eq by lra.
    destruct (Rgt_dec _ _); [reflexivity |].
    destruct (Rle_dec _ _); [lra |].
    unfold iBeam_flange_arm; simpl. ring.
Qed.

(* ================================================================= *)
(** ** The arms of [Q_point] and its boundaries *)

(** [Q_point] is the case analysis of the source over the arms above. *)
Lemma Q_point_arms (sectionType : string) (d : Dims) (y : R) :
  Q_point sectionType d y =
  if sectionType =? "rectangle" then
    if Rgt_dec (Rabs y) (rectHeightSI d / 2) then 0 else rectangle_arm d y
  else if sectionType =? "circle" then
    if Rgt_dec (Rabs y) (circleDiameterSI d / 2) then 0 else circle_arm d y
  else if sectionType =? "hollowCircle" then
    if Rgt_dec (Rabs y) (hollowOuterSI d) then 0
    else if Rle_dec (Rabs y) (hollowInnerSI d) then hollow_bore_arm d y
    else hollow_ring_arm d y
  else if sectionType =? "iBeam" then
    if Rgt_dec (Rabs y) (iBeamDepthSI d / 2) then 0
    else if Rle_dec (Rabs y) (iBeamDepthSI d / 2 - iBeamFlangeThickSI d)
         then iBeam_web_arm d (Rabs y)
         else iBeam_flange_arm d (Rabs y)
  else 0.
Proof. reflexivity. Qed.

Lemma Rabs_eq_sqr (y a : R) : Rabs y = a -> y * y = a * a.
Proof. intros <-. symmetry. apply Rabs_mul_self. Qed.

Lemma rectangle_arm_at_edge (d : Dims) (y : R) :
  Rabs y = rectHeightSI d / 2 -> rectangle_arm d y = 0.
Proof.
  intros H. apply Rabs_eq_sqr in H.
  unfold rectangle_arm; simpl. rewrite !Math_pow_2, H. ring.
Qed.

Lemma circle_arm_at_edge (d : Dims) (y : R) :
  Rabs y = circleDiameterSI d / 2 -> circle_arm d y = 0.
Proof.
  intros H. apply Rabs_eq_sqr in H.
  unfold circle_arm; simpl. rewrite H, Math_pow_1_5_nonpos by lra. ring.
Qed.

Lemma hollow_ring_arm_at_edge (d : Dims) (y : R) :
  Rabs y = hollowOuterSI d -> hollow_ring_arm d y = 0.
Proof.
  intros H. apply Rabs_eq_sqr in H.
  unfold hollow_ring_arm; simpl. rewrite H, Math_pow_1_5_nonpos by lra. ring.
Qed.

Lemma hollow_arms_at_bore (d : Dims) (y : R) :
  Rabs y = hollowInnerSI d -> hollow_bore_arm d y = hollow_ring_arm d y.
Proof.
  intros H. apply Rabs_eq_sqr in H.
  unfold hollow_bore_arm, hollow_ring_arm; simpl.
  rewrite H.
  rewrite (Math_pow_1_5_nonpos
             (hollowInnerSI d * hollowInnerSI d - hollowInnerSI d * hollowInnerSI d))
    by lra.
  ring.
Qed.

Lemma iBeam_flange_arm_at_edge (d : Dims) :
  iBeam_flange_arm d (iBeamDepthSI d / 2) = 0.
Proof. unfold iBeam_flange_arm; simpl. ring. Qed.

(** At the root of the flange the web arm is [bf * tf], the flange arm is
    [bf * tf * (tf / 2)]. *)
Lemma iBeam_arms_at_root (d : Dims) :
  let root := iBeamDepthSI d / 2 - iBeamFlangeThickSI d in
  iBeam_web_arm d root = iBeamFlangeWidthSI d * iBeamFlangeThickSI d /\
  iBeam_flange_arm d root =
    iBeamFlangeWidthSI d * iBeamFlangeThickSI d * (iBeamFlangeThickSI d / 2).
Proof.
  unfold iBeam_web_arm, iBeam_flange_arm; simpl. split; field.
Qed.

(** C1, as amended.  With positive dimensions, for the rectangle, the
    solid circle, the hollow circle with [Ri <= Ro] and the outer edge of the
    I-beam: an ordinate on a boundary ([|y|] equal to [a], [r], [Ri], [Ro]
    or [hd]) is handled by the inside arm, and the inside arm has there the
    value of the arm on the other side.  An ordinate at the root of the
    I-beam flange, [|y| = hd - tf], is handled by the web arm. *)
Theorem Q_point_boundaries (d : Dims) (y : R) :
  (valid_rectangle d -> Rabs y = rectHeightSI d / 2 ->
     Q_point "rectangle" d y = rectangle_arm d y /\ rectangle_arm d y = 0) /\
  (valid_circle d -> Rabs y = circleDiameterSI d / 2 ->
     Q_point "circle" d y = circle_arm d y /\ circle_arm d y = 0) /\
  (0 < hollowInnerSI d <= hollowOuterSI d ->
     (Rabs y = hollowOuterSI d ->
        Q_point "hollowCircle" d y = hollow_ring_arm d y /\
        hollow_ring_arm d y = 0) /\
     (Rabs y = hollowInnerSI d ->
        Q_point "hollowCircle" d y = hollow_bore_arm d y /\
        hollow_bore_arm d y = hollow_ring_arm d y)) /\
  (0 < iBeamDepthSI d /\ 0 < iBeamFlangeWidthSI d /\
   0 < iBeamFlangeThickSI d /\ 0 < iBeamWebThickSI d ->
     (Rabs y = iBeamDepthSI d / 2 ->
        Q_point "iBeam" d y = iBeam_flange_arm d (Rabs y) /\
        iBeam_flange_arm d (Rabs y) = 0) /\
     (Rabs y = iBeamDepthSI d / 2 - iBeamFlangeThickSI d ->
        Q_point "iBeam" d y = iBeam_web_arm d (Rabs y))).
Proof.
  rewrite !Q_point_arms; simpl. split; [| split; [| split]].
  - intros _ Hy. split; [| now apply rectangle_arm_at_edge].
    destruct (Rgt_dec _ _); [lra | reflexivity].
  - intros _ Hy. split; [| now apply circle_arm_at_edge].
    destruct (Rgt_dec _ _); [lra | reflexivity].
  - intros [Hi Hio]. split; intros Hy.
    + split; [| now apply hollow_ring_arm_at_edge].
      destruct (Rgt_dec _ _); [lra |].
      destruct (Rle_dec _ _); [| reflexivity].
      apply hollow_arms_at_bore. lra.
    + split; [| now apply hollow_arms_at_bore].
      destruct (Rgt_dec _ _); [lra |].
      destruct (Rle_dec _ _); [reflexivity | lra].
  - intros (Hh & Hbf & Htf & Htw). split; intros Hy.
    + split; [| rewrite Hy; apply iBeam_flange_arm_at_edge].
      destruct (Rgt_dec _ _); [lra |].
      destruct (Rle_dec _ _); [lra | reflexivity].
    + destruct (Rgt_dec _ _); [lra |].
      destruct (Rle_dec _ _); [reflexivity | lra].
Qed.

Lemma Q_point_boundaries_witness :
  (valid_rectangle (rect_dims 1 2) /\ Rabs 1 = 2 / 2 /\
   Q_point "rectangle" (rect_dims 1 2) 1 = rectangle_arm (rect_dims 1 2) 1 /\
   rectangle_arm (rect_dims 1 2) 1 = 0) /\
  (0 < 1 <= 2 /\ Rabs 1 = 1 /\
   Q_point "hollowCircle" (hollow_dims 2 1) 1 = hollow_bore_arm (hollow_dims 2 1) 1 /\
   hollow_bore_arm (hollow_dims 2 1) 1 = hollow_ring_arm (hollow_dims 2 1) 1) /\
  (Rabs 3 = 8 / 2 - 1 /\
   Q_point "iBeam" (iBeam_dims 8 4 1 1) 3 = iBeam_web_arm (iBeam_dims 8 4 1 1) (Rabs 3)).
Proof.
  assert (Hr : valid_rectangle (rect_dims 1 2))
    by (unfold valid_rectangle; simpl; lra).
  assert (H1 : Rabs 1 = 1) by (apply Rabs_pos_eq; lra).
  assert (H3 : Rabs 3 = 3) by (apply Rabs_pos_eq; lra).
  split; [| split].
  - split; [exact Hr |]. split; [lra |].
    apply (proj1 (Q_point_boundaries (rect_dims 1 2) 1)); [exact Hr |].
    simpl; lra.
  - split; [lra |]. split; [exact H1 |].
    apply (proj1 (proj2 (proj2 (Q_point_boundaries (hollow_dims 2 1) 1)))).
    + simpl; lra.
    + simpl; lra.
  - split; [lra |].
    apply (proj2 (proj2 (proj2 (Q_point_boundaries (iBeam_dims 8 4 1 1) 3)))).
    + simpl; lra.
    + simpl; lra.
Defined.

(** C1 as stated fails in two places.  At the root of the flange of the
    I-beam [h = 8, bf = 4, tf = 1, tw = 1] ([|y| = 3]) the web arm, which
    [Q_point] takes there, gives [4] while the flange arm gives [2].  For
    the hollow circle [Ro = 3, Ri = 5], whose dimensions are positive, the
    ordinate [|y| = Ro = 3] is handled by the bore arm, which gives
    [-128/3], while the arm beyond [Ro] gives [0]. *)
Lemma Q_point_boundary_mismatch :
  (Rabs 3 = 8 / 2 - 1 /\
   Q_point "iBeam" (iBeam_dims 8 4 1 1) 3 = 4 /\
   iBeam_web_arm (iBeam_dims 8 4 1 1) (Rabs 3) = 4 /\
   iBeam_flange_arm (iBeam_dims 8 4 1 1) (Rabs 3) = 2 /\
   iBeam_web_arm (iBeam_dims 8 4 1 1) (Rabs 3) <>
   iBeam_flange_arm (iBeam_dims 8 4 1 1) (Rabs 3)) /\
  (0 < 3 /\ 0 < 5 /\ Rabs 3 = 3 /\
   Q_point "hollowCircle" (hollow_dims 3 5) 3 = - (128 / 3) /\
   hollow_bore_arm (hollow_dims 3 5) 3 = - (128 / 3) /\
   Q_point "hollowCircle" (hollow_dims 3 5) 3 <> 0).
Proof.
  assert (H3 : Rabs 3 = 3) by (apply Rabs_pos_eq; lra).
  assert (Hs : sqrt 16 = 4).
  { replace 16 with (4 * 4) by lra. apply sqrt_square. lra. }
  assert (Hb : hollow_bore_arm (hollow_dims 3 5) 3 = - (128 / 3)).
  { unfold hollow_bore_arm; simpl.
    rewrite Math_pow_1_5_nonpos by lra.
    rewrite Math_pow_1_5 by lra. unfold pow_3_2.
    replace (5 * 5 - 3 * 3) with 16 by lra. rewrite Hs. lra. }
  split.
  - split; [lra |]. rewrite Q_point_iBeam_eq, H3.
    unfold iBeam_web_arm, iBeam_flange_arm; simpl.
    destruct (Rgt_dec _ _); [lra |].
    destruct (Rle_dec _ _); [| lra].
    repeat split; lra.
  - assert (HQ : Q_point "hollowCircle" (hollow_dims 3 5) 3 = - (128 / 3)).
    { rewrite Q_point_arms; simpl. rewrite H3.
      destruct (Rgt_dec _ _); [lra |].
      destruct (Rle_dec _ _); [exact Hb | lra]. }
    split; [lra |]. split; [lra |]. split; [exact H3 |].
    split; [exact HQ |]. split; [exact Hb |]. rewrite HQ. lra.
Qed.

(** Just above the root of that flange [Q_point] stays below [2]: the
    function drops from [4] at [|y| = 3]. *)
Lemma Q_point_iBeam_drop (y : R) :
  3 < Rabs y <= 4 -> Q_point "iBeam" (iBeam_dims 8 4 1 1) y < 2.
Proof.
  intros [Hlo Hhi]. rewrite Q_point_iBeam_eq.
  unfold iBeam_flange_arm; simpl.
  repeat settle_guard. nra.
Qed.

(** In binary64 the drop happens between two adjacent numbers: [Q_point]
    is [4] at [y = 3] and less than [2] at the next number above [3]. *)
Lemma Q_point_iBeam_drop_binary64 :
  let Q := Binary64.Q_point_iBeam (Binary64.of_Z 8) (Binary64.of_Z 1)
             (Binary64.of_Z 4) (Binary64.of_Z 1) in
  let three := Binary64.of_Z 3 in
  Q three = Binary64.of_Z 4 /\
  Binary64.gtb (Binary64.of_Z 2) (Q (SFsucc Binary64.prec Binary64.emax three)) = true.
Proof. vm_compute. split; reflexivity. Qed.

(* ================================================================= *)
(** ** The maximum of [Q_point] *)

(** C2 fails on the I-beam [h = 10, bf = 1, tf = 4, tw = 1], which is valid
    ([2*tf < h]): [Q_point] is [4.5] on the neutral axis and [6.125] at
    [y = 1.5], inside the flange. *)
Theorem Q_point_iBeam_exceeds_neutral_axis :
  valid_iBeam (iBeam_dims 10 1 4 1) /\
  Q_point "iBeam" (iBeam_dims 10 1 4 1) 0 = 4.5 /\
  Q_point "iBeam" (iBeam_dims 10 1 4 1) 1.5 = 6.125.
Proof.
  split; [unfold valid_iBeam; simpl; lra |].
  rewrite !Q_point_iBeam_eq. unfold iBeam_web_arm, iBeam_flange_arm; simpl.
  rewrite Rabs_R0, (Rabs_pos_eq 1.5) by lra.
  split; repeat settle_guard.
Qed.

(** The same two runs in binary64, where every operand and every result is
    exact: [9/2] on the neutral axis, [49/8] at [y = 3/2]. *)
Lemma iBeam_binary64_exceeds_neutral_axis :
  let Q := Binary64.Q_point_iBeam (Binary64.of_Z 10) (Binary64.of_Z 4)
             (Binary64.of_Z 1) (Binary64.of_Z 1) in
  let three_halves := Binary64.div (Binary64.of_Z 3) (Binary64.of_Z 2) in
  Q Binary64.zero = Binary64.div (Binary64.of_Z 9) (Binary64.of_Z 2) /\
  Q three_halves = Binary64.div (Binary64.of_Z 49) (Binary64.of_Z 8) /\
  Binary64.gtb (Q three_halves) (Q Binary64.zero) = true.
Proof. vm_compute. repeat split. Qed.

(** The rectangle arm and the I-beam arm disagree on one and the same
    section: an I-beam whose web is as thick as its flange is wide
    ([h = 8, bf = tw = 1]) is the rectangle [b = 1, h = 8], yet on the
    neutral axis the first gives [5.5] and the second [8]. *)
Lemma iBeam_disagrees_with_rectangle :
  Q_point "iBeam" (iBeam_dims 8 1 1 1) 0 = 5.5 /\
  Q_point "rectangle" (rect_dims 1 8) 0 = 8.
Proof.
  split.
  - rewrite Q_point_iBeam_eq. unfold iBeam_web_arm; simpl. rewrite Rabs_R0.
    repeat settle_guard.
  - rewrite Q_point_rectangle_eq; simpl. rewrite Rabs_R0.
    repeat settle_guard.
Qed.

(** Outside the I-beam the maximum is on the neutral axis. *)
Lemma Q_point_rectangle_max (d : Dims) (y : R) :
  valid_rectangle d -> Q_point "rectangle" d y <= Q_point "rectangle" d 0.
Proof.
  intros [Hb Hh]. rewrite !Q_point_rectangle_eq, Rabs_R0.
  destruct (Rgt_dec 0 _) as [H0 | _]; [lra |].
  destruct (Rgt_dec _ _) as [_ | _]; nra.
Qed.

Lemma Q_point_circle_max (d : Dims) (y : R) :
  valid_circle d -> Q_point "circle" d y <= Q_point "circle" d 0.
Proof.
  unfold valid_circle. intros Hd. rewrite !Q_point_circle_eq, Rabs_R0.
  destruct (Rgt_dec 0 _) as [H0 | _]; [lra |].
  assert (H0 : 0 <= pow_3_2 ((circleDiameterSI d / 2) ^ 2 - 0 ^ 2))
    by (apply pow_3_2_nonneg; nra).
  destruct (Rgt_dec _ _) as [_ | Hle]; [lra |].
  apply Rnot_gt_le, Rabs_sqr_le in Hle.
  assert (pow_3_2 ((circleDiameterSI d / 2) ^ 2 - y ^ 2)
          <= pow_3_2 ((circleDiameterSI d / 2) ^ 2 - 0 ^ 2))
    by (apply pow_3_2_le; nra).
  lra.
Qed.

Lemma g_mono (U u V v : R) :
  0 <= v -> v <= u -> 0 <= V -> V <= U -> v <= V -> u <= U ->
  (V * V + V * v + v * v) * (U + u) <= (U * U + U * u + u * u) * (V + v).
Proof.
  intros.
  assert (0 <= (U - V) * V) by nra.
  assert (0 <= (U - V) * v) by nra.
  assert (0 <= (u - v) * V) by nra.
  assert (0 <= (u - v) * v) by nra.
  assert (0 <= (U - V) * (u - v)) by nra.
  assert (0 <= (U - V) * U) by nra.
  assert (0 <= (u - v) * u) by nra.
  nra.
Qed.

(** If two pairs of non-negative reals have the same difference of squares,
    the larger pair has the larger difference of cubes. *)
Lemma cube_gap (U u V v : R) :
  0 <= v -> v <= u -> 0 < V -> V <= U -> v <= V -> u <= U ->
  U * U - u * u = V * V - v * v ->
  u * u * u - v * v * v <= U * U * U - V * V * V.
Proof.
  intros Hv Hvu HV HVU HvV HuU Heq.
  pose proof (g_mono U u V v Hv Hvu (Rlt_le _ _ HV) HVU HvV HuU) as Hg.
  set (X := U * U * U - u * u * u).
  set (Y := V * V * V - v * v * v).
  assert (HX : X * (U + u) = (U * U - u * u) * (U * U + U * u + u * u))
    by (unfold X; ring).
  assert (HY : Y * (V + v) = (V * V - v * v) * (V * V + V * v + v * v))
    by (unfold Y; ring).
  assert (Ht : 0 <= V * V - v * v) by nra.
  assert (Hle : Y * ((V + v) * (U + u)) <= X * ((U + u) * (V + v))).
  { replace (Y * ((V + v) * (U + u))) with ((Y * (V + v)) * (U + u)) by ring.
    replace (X * ((U + u) * (V + v))) with ((X * (U + u)) * (V + v)) by ring.
    rewrite HX, HY, Heq.
    rewrite !Rmult_assoc. apply Rmult_le_compat_l; [assumption | exact Hg]. }
  assert (Hpos : 0 < (U + u) * (V + v)) by (apply Rmult_lt_0_compat; lra).
  assert (Y <= X).
  { apply (Rmult_le_reg_r ((U + u) * (V + v))); [assumption |].
    replace (Y * ((U + u) * (V + v))) with (Y * ((V + v) * (U + u))) by ring.
    exact Hle. }
  unfold X, Y in *. lra.
Qed.

Lemma pow_3_2_cube (x : R) : 0 <= x -> pow_3_2 x = sqrt x * sqrt x * sqrt x.
Proof. intros Hx. unfold pow_3_2. rewrite sqrt_sqrt by assumption. reflexivity. Qed.

Lemma pow_3_2_square (s : R) : 0 <= s -> pow_3_2 (s ^ 2 - 0 ^ 2) = s * s * s.
Proof.
  intros Hs. unfold pow_3_2.
  replace (s ^ 2 - 0 ^ 2) with (s * s) by ring.
  rewrite sqrt_square by assumption. reflexivity.
Qed.

Lemma Q_point_hollowCircle_max (d : Dims) (y : R) :
  valid_hollowCircle d ->
  Q_point "hollowCircle" d y <= Q_point "hollowCircle" d 0.
Proof.
  intros [Hi Hio]. rewrite !Q_point_hollowCircle_eq, Rabs_R0.
  set (R_o := hollowOuterSI d) in *. set (R_i := hollowInnerSI d) in *.
  destruct (Rgt_dec 0 R_o) as [H0 | _]; [lra |].
  destruct (Rle_dec 0 R_i) as [_ | H0]; [| lra].
  rewrite !pow_3_2_square by lra.
  assert (Hcube : 0 < R_o * R_o * R_o - R_i * R_i * R_i).
  { replace (R_o * R_o * R_o - R_i * R_i * R_i)
      with ((R_o - R_i) * (R_o * R_o + R_o * R_i + R_i * R_i)) by ring.
    apply Rmult_lt_0_compat; nra. }
  destruct (Rgt_dec (Rabs y) R_o) as [_ | Ho]; [lra |].
  apply Rnot_gt_le in Ho. pose proof (Rabs_sqr_le _ _ Ho) as Ho2.
  destruct (Rle_dec (Rabs y) R_i) as [Hy | Hy].
  - pose proof (Rabs_sqr_le _ _ Hy) as Hi2.
    assert (Hxo : 0 <= R_o ^ 2 - y ^ 2) by nra.
    assert (Hxi : 0 <= R_i ^ 2 - y ^ 2) by nra.
    rewrite !pow_3_2_cube by assumption.
    set (u := sqrt (R_o ^ 2 - y ^ 2)). set (v := sqrt (R_i ^ 2 - y ^ 2)).
    assert (Hu2 : u * u = R_o ^ 2 - y ^ 2) by (apply sqrt_sqrt; assumption).
    assert (Hv2 : v * v = R_i ^ 2 - y ^ 2) by (apply sqrt_sqrt; assumption).
    assert (Hu : 0 <= u) by apply sqrt_pos.
    assert (Hv : 0 <= v) by apply sqrt_pos.
    assert (Hvu : v <= u) by (apply sqrt_le_1_alt; nra).
    assert (HuU : u <= R_o) by nra.
    assert (HvV : v <= R_i) by nra.
    pose proof (cube_gap R_o u R_i v Hv Hvu Hi (Rlt_le _ _ Hio) HvV HuU
                  ltac:(rewrite Hu2, Hv2; ring)) as Hgap.
    lra.
  - apply Rnot_le_lt in Hy.
    assert (Hxo : 0 <= R_o ^ 2 - y ^ 2) by nra.
    assert (Hyi : R_i * R_i < y * y) by (apply Rabs_sqr_lt; lra).
    assert (Hle : pow_3_2 (R_o ^ 2 - y ^ 2) <= pow_3_2 (R_o ^ 2 - R_i ^ 2))
      by (apply pow_3_2_le; nra).
    assert (Hx : 0 <= R_o ^ 2 - R_i ^ 2) by nra.
    rewrite (pow_3_2_cube (R_o ^ 2 - R_i ^ 2)) in Hle by assumption.
    set (u := sqrt (R_o ^ 2 - R_i ^ 2)) in *.
    assert (Hu2 : u * u = R_o ^ 2 - R_i ^ 2) by (apply sqrt_sqrt; assumption).
    assert (Hu : 0 <= u) by apply sqrt_pos.
    assert (HuU : u <= R_o) by nra.
    pose proof (cube_gap R_o u R_i 0 (Rle_refl 0) Hu Hi (Rlt_le _ _ Hio)
                  (Rlt_le _ _ Hi) HuU ltac:(rewrite Hu2; ring)) as Hgap.
    lra.
Qed.

(** On the I-beam the neutral axis carries the maximum as long as the
    flange is at most [2] thick. *)
Lemma Q_point_iBeam_max_thin_flange (d : Dims) (y : R) :
  valid_iBeam d -> iBeamFlangeThickSI d <= 2 ->
  Q_point "iBeam" d y <= Q_point "iBeam" d 0.
Proof.
  intros (Hh & Hbf & Htf & Htw & Hweb) Hthin.
  rewrite !Q_point_iBeam_eq, Rabs_R0.
  unfold iBeam_web_arm, iBeam_flange_arm; simpl.
  pose proof (Rabs_pos y) as Hy.
  set (h := iBeamDepthSI d) in *. set (bf := iBeamFlangeWidthSI d) in *.
  set (tf := iBeamFlangeThickSI d) in *. set (tw := iBeamWebThickSI d) in *.
  destruct (Rgt_dec 0 _) as [H0 | _]; [lra |].
  destruct (Rle_dec 0 _) as [_ | H0]; [| lra].
  assert (Hbt : 0 < bf * tf) by (apply Rmult_lt_0_compat; assumption).
  assert (Hw : 0 < h / 2 - tf) by lra.
  assert (Hww : 0 <= (h / 2 - tf) * (h / 2 - tf)) by nra.
  assert (Hw0 : tw * (h / 2 - tf - 0) * ((h / 2 - tf + 0) / 2)
                = tw * ((h / 2 - tf) * (h / 2 - tf)) / 2) by field.
  assert (Hq0 : 0 <= tw * ((h / 2 - tf) * (h / 2 - tf)))
    by (apply Rmult_le_pos; lra).
  rewrite Hw0.
  destruct (Rgt_dec _ _) as [_ | Hin]; [lra |].
  destruct (Rle_dec _ _) as [Hweby | Hfl].
  - assert (Hwy : tw * (h / 2 - tf - Rabs y) * ((h / 2 - tf + Rabs y) / 2)
                  = tw * ((h / 2 - tf) * (h / 2 - tf) - Rabs y * Rabs y) / 2)
      by field.
    rewrite Hwy.
    assert (0 <= tw * (Rabs y * Rabs y)) by (apply Rmult_le_pos; nra).
    lra.
  - assert (Hf : 0 <= h / 2 - Rabs y < tf) by lra.
    assert (Hsq : (h / 2 - Rabs y) * (h / 2 - Rabs y) <= tf * tf) by nra.
    assert (Hfy : bf * (h / 2 - Rabs y) * ((h / 2 - Rabs y) / 2)
                  = bf * ((h / 2 - Rabs y) * (h / 2 - Rabs y)) / 2) by field.
    assert (Hb1 : bf * ((h / 2 - Rabs y) * (h / 2 - Rabs y)) <= bf * (tf * tf))
      by (apply Rmult_le_compat_l; lra).
    assert (Hb2 : bf * (tf * tf) <= 2 * (bf * tf)) by nra.
    rewrite Hfy. lra.
Qed.

(* ================================================================= *)
(** ** Binary64 comparisons *)

Lemma SFcompare_swap (x y : Binary64.float) :
  SFcompare y x = option_map CompOpp (SFcompare x y).
Proof.
  destruct x as [sx | sx | | sx mx ex], y as [sy | sy | | sy my ey];
    simpl; try reflexivity;
    try (destruct sx; reflexivity); try (destruct sy; reflexivity);
    try (destruct sx, sy; reflexivity).
  destruct sx, sy; simpl; try reflexivity.
  - rewrite (Z.compare_antisym ex ey).
    destruct (Z.compare ex ey); simpl; try reflexivity.
    pose proof (Pos.compare_cont_antisym my mx Eq) as Ha; simpl in Ha.
    rewrite <- Ha. destruct (Pos.compare_cont Eq my mx); reflexivity.
  - rewrite (Z.compare_antisym ex ey).
    destruct (Z.compare ex ey); simpl; try reflexivity.
    pose proof (Pos.compare_cont_antisym my mx Eq) as Ha; simpl in Ha.
    rewrite <- Ha. destruct (Pos.compare_cont Eq my mx); reflexivity.
Qed.

Lemma leb_true_gtb_false (x y : Binary64.float) :
  Binary64.leb x y = true -> Binary64.gtb x y = false.
Proof.
  unfold Binary64.leb, Binary64.gtb, SFleb, SFltb.
  rewrite (SFcompare_swap x y).
  destruct (SFcompare x y) as [[| |] |]; simpl; intros H;
    (reflexivity || discriminate H).
Qed.

Lemma gtb_true_leb_false (x y : Binary64.float) :
  Binary64.gtb x y = true -> Binary64.leb x y = false.
Proof.
  unfold Binary64.leb, Binary64.gtb, SFleb, SFltb.
  rewrite (SFcompare_swap x y).
  destruct (SFcompare x y) as [[| |] |]; simpl; intros H;
    (reflexivity || discriminate H).
Qed.

(* ================================================================= *)
(** ** Specified properties that hold *)

(** C3. The I-beam case of [Q_point], in binary64 and with [hd = h/2]
    ([|y| <= hd], so that the guard [|y| > hd] of the source is passed):
    for an ordinate in the web, [|y| <= hd - tf], it returns
    [bf*tf + webArea*webCentroid] with [webArea = tw*(hd - tf - |y|)] and
    [webCentroid = (hd - tf + |y|)/2]; for an ordinate in the flange,
    [hd - tf < |y| <= hd], it returns
    [bf*flangeHeightAbove*(flangeHeightAbove/2)] with
    [flangeHeightAbove = hd - |y|].  Every operation, the difference
    [hd - tf] of the guard included, is the rounded binary64 one, as in the
    source. *)
Theorem Q_point_iBeam_two_arms (h tf bf tw y : Binary64.float) :
  let two := Binary64.of_Z 2 in
  let yAbs := Binary64.abs y in
  let hd := Binary64.div h two in
  let root := Binary64.sub hd tf in
  (Binary64.leb yAbs hd = true ->
   Binary64.leb yAbs root = true ->
     let webArea := Binary64.mul tw (Binary64.sub root yAbs) in
     let webCentroid := Binary64.div (Binary64.add root yAbs) two in
     Binary64.Q_point_iBeam h tf bf tw y =
     Binary64.add (Binary64.mul bf tf) (Binary64.mul webArea webCentroid)) /\
  (Binary64.gtb yAbs root = true ->
   Binary64.leb yAbs hd = true ->
     let flangeHeightAbove := Binary64.sub hd yAbs in
     Binary64.Q_point_iBeam h tf bf tw y =
     Binary64.mul (Binary64.mul bf flangeHeightAbove)
                  (Binary64.div flangeHeightAbove two)).
Proof.
  cbv zeta. split.
  - intros Hhd Hroot. unfold Binary64.Q_point_iBeam.
    rewrite (leb_true_gtb_false _ _ Hhd), Hroot. reflexivity.
  - intros Hroot Hhd. unfold Binary64.Q_point_iBeam.
    rewrite (leb_true_gtb_false _ _ Hhd), (gtb_true_leb_false _ _ Hroot).
    reflexivity.
Qed.

Lemma Q_point_iBeam_two_arms_witness :
  let f := Binary64.of_Z in
  let two := f 2%Z in
  let hd := Binary64.div (f 8%Z) two in
  let root := Binary64.sub hd (f 1%Z) in
  let half7 := Binary64.div (f 7%Z) two in
  (Binary64.leb (Binary64.abs two) hd = true /\
   Binary64.leb (Binary64.abs two) root = true /\
   Binary64.Q_point_iBeam (f 8%Z) (f 1%Z) (f 4%Z) (f 1%Z) two =
   Binary64.add (Binary64.mul (f 4%Z) (f 1%Z))
     (Binary64.mul (Binary64.mul (f 1%Z) (Binary64.sub root (Binary64.abs two)))
                   (Binary64.div (Binary64.add root (Binary64.abs two)) two))) /\
  (Binary64.gtb (Binary64.abs half7) root = true /\
   Binary64.leb (Binary64.abs half7) hd = true /\
   Binary64.Q_point_iBeam (f 8%Z) (f 1%Z) (f 4%Z) (f 1%Z) half7 =
   Binary64.mul (Binary64.mul (f 4%Z) (Binary64.sub hd (Binary64.abs half7)))
                (Binary64.div (Binary64.sub hd (Binary64.abs half7)) two)).
Proof.
  intros f two hd root half7.
  assert (H1 : Binary64.leb (Binary64.abs two) hd = true) by (vm_compute; reflexivity).
  assert (H2 : Binary64.leb (Binary64.abs two) root = true) by (vm_compute; reflexivity).
  assert (H3 : Binary64.gtb (Binary64.abs half7) root = true) by (vm_compute; reflexivity).
  assert (H4 : Binary64.leb (Binary64.abs half7) hd = true) by (vm_compute; reflexivity).
  split.
  - split; [exact H1 |]. split; [exact H2 |].
    exact (proj1 (Q_point_iBeam_two_arms (f 8%Z) (f 1%Z) (f 4%Z) (f 1%Z) two) H1 H2).
  - split; [exact H3 |]. split; [exact H4 |].
    exact (proj2 (Q_point_iBeam_two_arms (f 8%Z) (f 1%Z) (f 4%Z) (f 1%Z) half7) H3 H4).
Defined.

(** The guard is decided on the rounded difference.  For [h = 0.3],
    [tf = 0.02], [bf = 0.1], [tw = 0.01] and [y = 0.13] (the binary64
    numbers nearest to these decimals) the exact [hd - tf] is below [y],
    but the rounded one equals [y]: the web arm is taken and the first
    moment is [bf * tf], about [0.002]. *)
Example Q_point_iBeam_rounded_guard :
  let f := Binary64.of_Z in
  let h := Binary64.div (f 3%Z) (f 10%Z) in
  let tf := Binary64.div (f 2%Z) (f 100%Z) in
  let bf := Binary64.div (f 1%Z) (f 10%Z) in
  let tw := Binary64.div (f 1%Z) (f 100%Z) in
  let y := Binary64.div (f 13%Z) (f 100%Z) in
  Binary64.sub (Binary64.div h (f 2%Z)) tf = y /\
  Binary64.Q_point_iBeam h tf bf tw y = Binary64.mul bf tf.
Proof. vm_compute. split; reflexivity. Qed.

(** C4. The four stresses are exactly [axialForce / area],
    [bendingMoment * y / inertia], [torque * |y| / polarInertia] and
    [shearForce * Q / (inertia * shearThickness)], each on its own: nothing
    is clamped and nothing is combined.  This holds in real arithmetic and
    in binary64 arithmetic alike. *)
Theorem computeStresses_formulas :
  (forall (p : SectionProps R) (Q : R) (l : Loads R) (y : R),
     stressesR p Q l y =
     {| axial := forceSI l / area p;
        bending := momentSI l * y / inertia p;
        torsionalShear := torqueSI l * Rabs y / polarInertia p;
        transverseShear := shearForceSI l * Q / (inertia p * shearThickness p) |}) /\
  (forall (p : SectionProps Binary64.float) (Q : Binary64.float)
          (l : Loads Binary64.float) (y : Binary64.float),
     Binary64.stresses p Q l y =
     {| axial := Binary64.div (forceSI l) (area p);
        bending := Binary64.div (Binary64.mul (momentSI l) y) (inertia p);
        torsionalShear :=
          Binary64.div (Binary64.mul (torqueSI l) (Binary64.abs y)) (polarInertia p);
        transverseShear :=
          Binary64.div (Binary64.mul (shearForceSI l) Q)
                       (Binary64.mul (inertia p) (shearThickness p)) |}).
Proof. split; reflexivity. Qed.

(** C5. Hollow circle: when [Ri >= Ro] [sectionProps] returns
    [{area: 0, inertia: 0, polarInertia: 0, outerRadius: Ro,
    shearThickness: 0}]; when [Ri < Ro] it returns
    [area = PI (Ro^2 - Ri^2)], [inertia = (PI/4)(Ro^4 - Ri^4)],
    [polarInertia = (PI/2)(Ro^4 - Ri^4)], [outerRadius = Ro] and
    [shearThickness = Ro - Ri].  The function is total: a record is
    returned in both cases. *)
Theorem sectionProps_hollowCircle (d : Dims) :
  let R_o := hollowOuterSI d in
  let R_i := hollowInnerSI d in
  (R_i >= R_o ->
     sectionProps "hollowCircle" d =
     {| area := 0; inertia := 0; polarInertia := 0;
        outerRadius := R_o; shearThickness := 0 |}) /\
  (R_i < R_o ->
     sectionProps "hollowCircle" d =
     {| area := PI * (R_o ^ 2 - R_i ^ 2);
        inertia := PI / 4 * (R_o ^ 4 - R_i ^ 4);
        polarInertia := PI / 2 * (R_o ^ 4 - R_i ^ 4);
        outerRadius := R_o;
        shearThickness := R_o - R_i |}).
Proof.
  intros R_o R_i. subst R_o R_i. split.
  - apply sectionProps_hollow_degenerate.
  - apply sectionProps_hollow_regular.
Qed.

Lemma sectionProps_hollowCircle_witness :
  (2 >= 1 /\
   sectionProps "hollowCircle" (hollow_dims 1 2) =
   {| area := 0; inertia := 0; polarInertia := 0;
      outerRadius := 1; shearThickness := 0 |}) /\
  (1 < 2 /\
   sectionProps "hollowCircle" (hollow_dims 2 1) =
   {| area := PI * (2 ^ 2 - 1 ^ 2);
      inertia := PI / 4 * (2 ^ 4 - 1 ^ 4);
      polarInertia := PI / 2 * (2 ^ 4 - 1 ^ 4);
      outerRadius := 2;
      shearThickness := 2 - 1 |}).
Proof.
  split; (split; [lra |]).
  - apply (proj1 (sectionProps_hollowCircle (hollow_dims 1 2))). simpl. lra.
  - apply (proj2 (sectionProps_hollowCircle (hollow_dims 2 1))). simpl. lra.
Defined.

(** C7. Hollow circle with [0 < Ri < Ro]: [Q_point] is [0] when
    [|y| > Ro], [(2/3) ((Ro^2 - y^2)^1.5 - (Ri^2 - y^2)^1.5)] when
    [|y| <= Ri], and [(2/3) (Ro^2 - y^2)^1.5] when [Ri < |y| <= Ro]. *)
Theorem Q_point_hollowCircle_three_pieces (d : Dims) (y : R) :
  valid_hollowCircle d ->
  let R_o := hollowOuterSI d in
  let R_i := hollowInnerSI d in
  (Rabs y > R_o -> Q_point "hollowCircle" d y = 0) /\
  (Rabs y <= R_i ->
     Q_point "hollowCircle" d y =
     2 / 3 * (pow_3_2 (R_o ^ 2 - y ^ 2) - pow_3_2 (R_i ^ 2 - y ^ 2))) /\
  (R_i < Rabs y <= R_o ->
     Q_point "hollowCircle" d y = 2 / 3 * pow_3_2 (R_o ^ 2 - y ^ 2)).
Proof.
  intros [Hi Hio] R_o R_i. subst R_o R_i.
  rewrite Q_point_hollowCircle_eq. repeat split.
  - intros Hy. destruct (Rgt_dec _ _); [reflexivity | contradiction].
  - intros Hy. destruct (Rgt_dec _ _) as [Hgt | _]; [lra |].
    destruct (Rle_dec _ _); [reflexivity | contradiction].
  - intros [Hlo Hhi]. destruct (Rgt_dec _ _) as [Hgt | _]; [lra |].
    destruct (Rle_dec _ _); [lra | reflexivity].
Qed.

Lemma Q_point_hollowCircle_three_pieces_witness :
  valid_hollowCircle (hollow_dims 2 1) /\
  (Rabs 3 > 2 /\ Q_point "hollowCircle" (hollow_dims 2 1) 3 = 0) /\
  (Rabs 0 <= 1 /\
   Q_point "hollowCircle" (hollow_dims 2 1) 0 =
   2 / 3 * (pow_3_2 (2 ^ 2 - 0 ^ 2) - pow_3_2 (1 ^ 2 - 0 ^ 2))) /\
  (1 < Rabs 1.5 <= 2 /\
   Q_point "hollowCircle" (hollow_dims 2 1) 1.5 =
   2 / 3 * pow_3_2 (2 ^ 2 - 1.5 ^ 2)).
Proof.
  assert (Hv : valid_hollowCircle (hollow_dims 2 1))
    by (unfold valid_hollowCircle; simpl; lra).
  assert (H3 : Rabs 3 = 3) by (apply Rabs_pos_eq; lra).
  assert (H1 : Rabs 1.5 = 1.5) by (apply Rabs_pos_eq; lra).
  split; [exact Hv |]. split; [| split].
  - split; [lra |].
    apply (proj1 (Q_point_hollowCircle_three_pieces (hollow_dims 2 1) 3 Hv)).
    simpl; lra.
  - split; [rewrite Rabs_R0; lra |].
    apply (proj1 (proj2 (Q_point_hollowCircle_three_pieces (hollow_dims 2 1) 0 Hv))).
    simpl. rewrite Rabs_R0. lra.
  - split; [lra |].
    apply (proj2 (proj2 (Q_point_hollowCircle_three_pieces (hollow_dims 2 1) 1.5 Hv))).
    simpl; lra.
Defined.

(** C9. For valid, non-degenerate dimensions of any of the four variants,
    [area], [inertia] and [polarInertia] are non-negative. *)
Theorem sectionProps_nonneg (sectionType : string) (d : Dims) :
  valid_dims sectionType d ->
  0 <= area (sectionProps sectionType d) /\
  0 <= inertia (sectionProps sectionType d) /\
  0 <= polarInertia (sectionProps sectionType d).
Proof.
  intros Hv. destruct (sectionProps_positive _ _ Hv) as (Ha & Hi & Hj & _).
  repeat split; lra.
Qed.

Lemma sectionProps_nonneg_witness :
  valid_dims "iBeam" (iBeam_dims 8 4 1 1) /\
  0 <= area (sectionProps "iBeam" (iBeam_dims 8 4 1 1)) /\
  0 <= inertia (sectionProps "iBeam" (iBeam_dims 8 4 1 1)) /\
  0 <= polarInertia (sectionProps "iBeam" (iBeam_dims 8 4 1 1)).
Proof.
  assert (Hv : valid_dims "iBeam" (iBeam_dims 8 4 1 1)).
  { right; right; right. split; [reflexivity |]. unfold valid_iBeam; simpl; lra. }
  split; [exact Hv |].
  apply (sectionProps_nonneg "iBeam" (iBeam_dims 8 4 1 1) Hv).
Defined.

(** C10. For a tag that is none of [rectangle], [circle], [hollowCircle],
    [iBeam], [sectionProps] returns the all-zero record and [Q_point]
    returns [0], whatever the dimensions and the ordinate. *)
Theorem unrecognized_tag (sectionType : string) (d : Dims) (y : R) :
  ~ recognized sectionType ->
  sectionProps sectionType d =
    {| area := 0; inertia := 0; polarInertia := 0;
       outerRadius := 0; shearThickness := 0 |} /\
  Q_point sectionType d y = 0.
Proof.
  intros H. split.
  - now apply sectionProps_unrecognized.
  - now apply Q_point_unrecognized.
Qed.

Lemma unrecognized_tag_witness :
  ~ recognized "triangle" /\
  sectionProps "triangle" (rect_dims 1 2) =
    {| area := 0; inertia := 0; polarInertia := 0;
       outerRadius := 0; shearThickness := 0 |} /\
  Q_point "triangle" (rect_dims 1 2) 0 = 0.
Proof.
  assert (Hn : ~ recognized "triangle").
  { unfold recognized. intros [H | [H | [H | H]]]; discriminate H. }
  split; [exact Hn |].
  apply (unrecognized_tag "triangle" (rect_dims 1 2) 0 Hn).
Defined.

(** C8. For valid dimensions and an ordinate beyond the outer radius,
    [Q_point] is [0], hence the transverse shear is [0]; the bending and
    torsional stresses are still given by their formulas and are non-zero
    as soon as the bending moment, respectively the torque, is non-zero.
    Nothing rejects the ordinate: every function involved is total. *)
Theorem out_of_range_ordinate
    (sectionType : string) (d : Dims) (l : Loads R) (y : R) :
  valid_dims sectionType d ->
  Rabs y > outerRadius (sectionProps sectionType d) ->
  let p := sectionProps sectionType d in
  let s := stressesR p (Q_point sectionType d y) l y in
  Q_point sectionType d y = 0 /\
  transverseShear s = 0 /\
  bending s = momentSI l * y / inertia p /\
  torsionalShear s = torqueSI l * Rabs y / polarInertia p /\
  (momentSI l <> 0 -> bending s <> 0) /\
  (torqueSI l <> 0 -> torsionalShear s <> 0).
Proof.
  intros Hv Hy p s.
  destruct (sectionProps_positive _ _ Hv) as (_ & HI & HJ & Hr).
  fold p in HI, HJ, Hr, Hy.
  assert (HQ : Q_point sectionType d y = 0) by now apply Q_point_outside.
  assert (Hy0 : y <> 0).
  { intros ->. rewrite Rabs_R0 in Hy. lra. }
  assert (Hay : Rabs y <> 0) by now apply Rabs_no_R0.
  subst s. unfold stressesR, computeStresses, transverseShearSI,
    bendingStressSI, torsionalShearSI; simpl. rewrite HQ.
  repeat split.
  - unfold Rdiv. ring.
  - intros HM. unfold Rdiv.
    repeat apply Rmult_integral_contrapositive_currified; try assumption.
    apply Rinv_neq_0_compat. lra.
  - intros HT. unfold Rdiv.
    repeat apply Rmult_integral_contrapositive_currified; try assumption.
    apply Rinv_neq_0_compat. lra.
Qed.

Lemma out_of_range_ordinate_witness :
  let d := rect_dims 1 2 in
  let l := {| forceSI := 1000; momentSI := 1000; torqueSI := 1000;
              shearForceSI := 500 |} in
  let p := sectionProps "rectangle" d in
  let s := stressesR p (Q_point "rectangle" d 3) l 3 in
  valid_dims "rectangle" d /\
  Rabs 3 > outerRadius p /\
  Q_point "rectangle" d 3 = 0 /\
  transverseShear s = 0 /\
  bending s = 1000 * 3 / inertia p /\
  torsionalShear s = 1000 * Rabs 3 / polarInertia p /\
  (1000 <> 0 -> bending s <> 0) /\
  (1000 <> 0 -> torsionalShear s <> 0).
Proof.
  intros d l p s.
  assert (Hv : valid_dims "rectangle" d).
  { left. split; [reflexivity |]. unfold valid_rectangle; simpl; lra. }
  assert (Hy : Rabs 3 > outerRadius p).
  { subst p. rewrite sectionProps_rectangle; simpl. rewrite Rabs_pos_eq; lra. }
  split; [exact Hv |]. split; [exact Hy |].
  exact (out_of_range_ordinate "rectangle" d l 3 Hv Hy).
Defined.

(* ================================================================= *)
(** ** Division by zero in binary64 *)

Module Binary64Facts.
Import Binary64.

Lemma nonFinite_isFinite (x : float) : nonFinite x <-> isFinite x = false.
Proof.
  unfold nonFinite. split.
  - intros [-> | [-> | ->]]; reflexivity.
  - destruct x as [s | [|] | | s m e]; simpl; intros H;
      try discriminate H; auto.
Qed.

(** A product with a zero is a zero or NaN. *)
Lemma mul_zero_r (x z : float) :
  isZero z = true -> isZero (mul x z) = true \/ mul x z = S754_nan.
Proof.
  destruct z as [sz | | |]; try discriminate 1. intros _.
  destruct x as [sx | sx | | sx mx ex]; simpl; auto.
Qed.

(** A quotient by a zero is an infinity or NaN. *)
Lemma div_zero_r (x z : float) :
  isZero z = true -> nonFinite (div x z).
Proof.
  destruct z as [sz | | |]; try discriminate 1. intros _.
  unfold nonFinite.
  destruct x as [sx | sx | | sx mx ex]; simpl; auto;
    destruct (xorb sx sz); auto.
Qed.

Lemma div_nan_r (x : float) : div x S754_nan = S754_nan.
Proof. destruct x; reflexivity. Qed.

End Binary64Facts.

(** C6. In binary64 the division by zero is not intercepted: when
    [shearThickness] is a zero the transverse shear is [Infinity],
    [-Infinity] or [NaN], and when [area] is a zero so is the axial stress;
    a value is returned in every case. *)
Theorem division_by_zero_propagates
    (p : SectionProps Binary64.float) (Q : Binary64.float)
    (l : Loads Binary64.float) (y : Binary64.float) :
  (Binary64.isZero (shearThickness p) = true ->
     Binary64.nonFinite (transverseShear (Binary64.stresses p Q l y))) /\
  (Binary64.isZero (area p) = true ->
     Binary64.nonFinite (axial (Binary64.stresses p Q l y))).
Proof.
  split; intros Hz; simpl.
  - unfold transverseShearSI.
    destruct (Binary64Facts.mul_zero_r (inertia p) _ Hz) as [H0 | Hnan].
    + now apply Binary64Facts.div_zero_r.
    + fold Binary64.mul in Hnan |- *. rewrite Hnan, Binary64Facts.div_nan_r.
      right; right; reflexivity.
  - unfold axialStressSI. now apply Binary64Facts.div_zero_r.
Qed.

Lemma division_by_zero_propagates_witness :
  let p := Binary64.degenerateHollowProps (Binary64.of_Z 1) in
  let l := {| forceSI := Binary64.of_Z 1000; momentSI := Binary64.of_Z 1000;
              torqueSI := Binary64.of_Z 1000; shearForceSI := Binary64.of_Z 500 |} in
  Binary64.isZero (shearThickness p) = true /\
  Binary64.isZero (area p) = true /\
  Binary64.nonFinite
    (transverseShear (Binary64.stresses p Binary64.zero l Binary64.zero)) /\
  Binary64.nonFinite
    (axial (Binary64.stresses p Binary64.zero l Binary64.zero)).
Proof.
  intros p l.
  pose proof (division_by_zero_propagates p Binary64.zero l Binary64.zero) as [Ht Ha].
  repeat split.
  - apply Ht. reflexivity.
  - apply Ha. reflexivity.
Defined.

(** The same run, evaluated: with the degenerate hollow section, an axial
    force of 1000 and a zero first moment, the axial stress is [Infinity]
    and the transverse shear [0 / 0] is [NaN]. *)
Example degenerate_hollow_stresses :
  let p := Binary64.degenerateHollowProps (Binary64.of_Z 1) in
  let l := {| forceSI := Binary64.of_Z 1000; momentSI := Binary64.of_Z 1000;
              torqueSI := Binary64.of_Z 1000; shearForceSI := Binary64.of_Z 500 |} in
  axial (Binary64.stresses p Binary64.zero l Binary64.zero) = S754_infinity false /\
  transverseShear (Binary64.stresses p Binary64.zero l Binary64.zero) = S754_nan /\
  transverseShear (Binary64.stresses p (Binary64.of_Z 1) l Binary64.zero)
    = S754_infinity false.
Proof. vm_compute. repeat split. Qed.

(** Finite operands divide as expected: [1000 / 8 = 125]. *)
Example binary64_division_exact :
  Binary64.div (Binary64.of_Z 1000) (Binary64.of_Z 8) = Binary64.of_Z 125.
Proof. vm_compute. reflexivity. Qed.

(* ================================================================= *)
(** ** Further properties of [Q_point] *)

Open Scope R_scope.

Lemma Q_point_Rabs (sectionType : string) (d : Dims) (y : R) :
  Q_point sectionType d (Rabs y) = Q_point sectionType d y.
Proof.
  unfold Q_point. rewrite !Math_pow_2, Rabs_Rabsolu, Rabs_mul_self. reflexivity.
Qed.

(** X1. [Q_point] reads the ordinate through [Math.abs] and through its
    square only: two ordinates of equal magnitude give the same first
    moment, for every tag and every dimension set. *)
Theorem Q_point_depends_on_magnitude
    (sectionType : string) (d : Dims) (y1 y2 : R) :
  Rabs y1 = Rabs y2 -> Q_point sectionType d y1 = Q_point sectionType d y2.
Proof.
  intros H.
  assert (Hsq : y1 * y1 = y2 * y2)
    by (rewrite <- (Rabs_mul_self y1), <- (Rabs_mul_self y2), H; reflexivity).
  unfold Q_point. rewrite !Math_pow_2, H, Hsq. reflexivity.
Qed.

Lemma Q_point_depends_on_magnitude_witness :
  Rabs (- (1)) = Rabs 1 /\
  Q_point "hollowCircle" (hollow_dims 2 1) (- (1)) =
  Q_point "hollowCircle" (hollow_dims 2 1) 1.
Proof.
  assert (H : Rabs (- (1)) = Rabs 1) by apply Rabs_Ropp.
  split; [exact H |].
  exact (Q_point_depends_on_magnitude "hollowCircle" (hollow_dims 2 1) (- (1)) 1 H).
Defined.

(** The first moment of each valid section is non-negative. *)
Lemma Q_rectangle_nonneg (d : Dims) (y : R) :
  valid_rectangle d -> 0 <= Q_point "rectangle" d y.
Proof.
  intros [Hb Hh]. rewrite Q_point_rectangle_eq.
  destruct (Rgt_dec _ _) as [_ | Hle]; [lra |].
  apply Rnot_gt_le, Rabs_sqr_le in Hle.
  apply Rmult_le_pos; nra.
Qed.

Lemma Q_circle_nonneg (d : Dims) (y : R) : 0 <= Q_point "circle" d y.
Proof.
  rewrite Q_point_circle_eq.
  destruct (Rgt_dec _ _) as [_ | Hle]; [lra |].
  apply Rnot_gt_le, Rabs_sqr_le in Hle.
  assert (0 <= pow_3_2 ((circleDiameterSI d / 2) ^ 2 - y ^ 2))
    by (apply pow_3_2_nonneg; nra).
  lra.
Qed.

Lemma Q_hollowCircle_nonneg (d : Dims) (y : R) :
  hollowInnerSI d <= hollowOuterSI d -> 0 <= Q_point "hollowCircle" d y.
Proof.
  intros Hio. rewrite Q_point_hollowCircle_eq.
  destruct (Rgt_dec _ _) as [_ | Ho]; [lra |].
  apply Rnot_gt_le in Ho. pose proof (Rabs_sqr_le _ _ Ho) as Ho2.
  pose proof (Rabs_pos y) as Hy.
  destruct (Rle_dec _ _) as [Hi | _].
  - pose proof (Rabs_sqr_le _ _ Hi) as Hi2.
    assert (pow_3_2 (hollowInnerSI d ^ 2 - y ^ 2)
            <= pow_3_2 (hollowOuterSI d ^ 2 - y ^ 2))
      by (apply pow_3_2_le; nra).
    lra.
  - assert (0 <= pow_3_2 (hollowOuterSI d ^ 2 - y ^ 2))
      by (apply pow_3_2_nonneg; nra).
    lra.
Qed.

Lemma Q_iBeam_nonneg (d : Dims) (y : R) :
  valid_iBeam d -> 0 <= Q_point "iBeam" d y.
Proof.
  intros (Hh & Hbf & Htf & Htw & Hweb). rewrite Q_point_iBeam_eq.
  unfold iBeam_web_arm, iBeam_flange_arm; simpl.
  pose proof (Rabs_pos y) as Hy.
  destruct (Rgt_dec _ _) as [_ | Hin]; [lra |].
  destruct (Rle_dec _ _) as [Hw | Hf].
  - assert (0 <= iBeamFlangeWidthSI d * iBeamFlangeThickSI d)
      by (apply Rmult_le_pos; lra).
    assert (0 <= iBeamWebThickSI d *
                 (iBeamDepthSI d / 2 - iBeamFlangeThickSI d - Rabs y) *
                 ((iBeamDepthSI d / 2 - iBeamFlangeThickSI d + Rabs y) / 2))
      by (repeat apply Rmult_le_pos; lra).
    lra.
  - repeat apply Rmult_le_pos; lra.
Qed.

(** X2. For valid dimensions of any of the four sections the first moment
    is non-negative at every ordinate. *)
Theorem Q_point_nonneg (sectionType : string) (d : Dims) (y : R) :
  valid_dims sectionType d -> 0 <= Q_point sectionType d y.
Proof.
  intros [(-> & Hv) | [(-> & Hv) | [(-> & Hv) | (-> & Hv)]]].
  - now apply Q_rectangle_nonneg.
  - apply Q_circle_nonneg.
  - apply Q_hollowCircle_nonneg. destruct Hv; lra.
  - now apply Q_iBeam_nonneg.
Qed.

Lemma Q_point_nonneg_witness :
  valid_dims "iBeam" (iBeam_dims 8 4 1 1) /\
  0 <= Q_point "iBeam" (iBeam_dims 8 4 1 1) 3.
Proof.
  assert (Hv : valid_dims "iBeam" (iBeam_dims 8 4 1 1)).
  { right; right; right. split; [reflexivity |]. unfold valid_iBeam; simpl; lra. }
  split; [exact Hv |].
  exact (Q_point_nonneg "iBeam" (iBeam_dims 8 4 1 1) 3 Hv).
Defined.

Lemma Rabs_le_sqr (y1 y2 : R) : Rabs y1 <= Rabs y2 -> y1 ^ 2 <= y2 ^ 2.
Proof.
  intros H. pose proof (Rabs_pos y1) as Hp.
  rewrite !pow_2_mul, <- (Rabs_mul_self y1), <- (Rabs_mul_self y2). nra.
Qed.

(** The difference [(A - t)^1.5 - (B - t)^1.5] shrinks as [t] grows. *)
Lemma pow_3_2_gap_mono (A B s t : R) :
  s <= t -> t <= B -> B <= A ->
  pow_3_2 (A - t) - pow_3_2 (B - t) <= pow_3_2 (A - s) - pow_3_2 (B - s).
Proof.
  intros Hst HtB HBA.
  destruct (Req_dec s t) as [-> | Hne]; [lra |].
  rewrite !pow_3_2_cube by lra.
  set (U := sqrt (A - s)). set (u := sqrt (A - t)).
  set (V := sqrt (B - s)). set (v := sqrt (B - t)).
  assert (HU2 : U * U = A - s) by (apply sqrt_sqrt; lra).
  assert (Hu2 : u * u = A - t) by (apply sqrt_sqrt; lra).
  assert (HV2 : V * V = B - s) by (apply sqrt_sqrt; lra).
  assert (Hv2 : v * v = B - t) by (apply sqrt_sqrt; lra).
  assert (HV : 0 < V) by (apply sqrt_lt_R0; lra).
  assert (Hv : 0 <= v) by apply sqrt_pos.
  assert (Hvu : v <= u) by (apply sqrt_le_1_alt; lra).
  assert (HVU : V <= U) by (apply sqrt_le_1_alt; lra).
  assert (HvV : v <= V) by (apply sqrt_le_1_alt; lra).
  assert (HuU : u <= U) by (apply sqrt_le_1_alt; lra).
  apply (cube_gap U u V v); try assumption. lra.
Qed.

Lemma Q_hollowCircle_mono (d : Dims) (y1 y2 : R) :
  valid_hollowCircle d -> Rabs y1 <= Rabs y2 ->
  Q_point "hollowCircle" d y2 <= Q_point "hollowCircle" d y1.
Proof.
  intros [Hi Hio] H12.
  pose proof (Q_hollowCircle_nonneg d y1 ltac:(lra)) as Hnn.
  rewrite !Q_point_hollowCircle_eq in *.
  set (A := hollowOuterSI d ^ 2). set (B := hollowInnerSI d ^ 2).
  fold A B in Hnn.
  pose proof (Rabs_pos y1) as Hp1.
  assert (Hs12 : y1 ^ 2 <= y2 ^ 2) by (now apply Rabs_le_sqr).
  destruct (Rgt_dec (Rabs y2) _) as [_ | Ho2]; [exact Hnn |].
  apply Rnot_gt_le in Ho2. pose proof (Rabs_sqr_le _ _ Ho2) as Ho2s.
  destruct (Rgt_dec (Rabs y1) _) as [Ho1 | _]; [lra |].
  assert (HBA : B <= A) by (unfold A, B; nra).
  assert (HtA : y2 ^ 2 <= A) by (unfold A; nra).
  destruct (Rle_dec (Rabs y2) _) as [Hi2 | Hi2].
  - destruct (Rle_dec (Rabs y1) _) as [_ | Hi1]; [| lra].
    pose proof (Rabs_sqr_le _ _ Hi2) as Hi2s.
    assert (HtB : y2 ^ 2 <= B) by (unfold B; nra).
    pose proof (pow_3_2_gap_mono A B _ _ Hs12 HtB HBA). lra.
  - apply Rnot_le_lt in Hi2.
    assert (HBt : B <= y2 ^ 2).
    { unfold B. rewrite !pow_2_mul. apply Rlt_le, Rabs_sqr_lt; lra. }
    destruct (Rle_dec (Rabs y1) _) as [Hi1 | Hi1].
    + pose proof (Rabs_sqr_le _ _ Hi1) as Hi1s.
      assert (HsB : y1 ^ 2 <= B) by (unfold B; nra).
      pose proof (pow_3_2_gap_mono A B _ _ HsB (Rle_refl B) HBA) as Hgap.
      replace (B - B) with 0 in Hgap by ring. rewrite pow_3_2_0 in Hgap.
      assert (pow_3_2 (A - y2 ^ 2) <= pow_3_2 (A - B)) by (apply pow_3_2_le; lra).
      lra.
    + assert (pow_3_2 (A - y2 ^ 2) <= pow_3_2 (A - y1 ^ 2))
        by (apply pow_3_2_le; lra).
      lra.
Qed.

Lemma Q_rectangle_mono (d : Dims) (y1 y2 : R) :
  valid_rectangle d -> Rabs y1 <= Rabs y2 ->
  Q_point "rectangle" d y2 <= Q_point "rectangle" d y1.
Proof.
  intros Hv H12. pose proof (Q_rectangle_nonneg d y1 Hv) as Hnn.
  destruct Hv as [Hb Hh]. pose proof (Rabs_le_sqr _ _ H12) as Hs.
  rewrite !Q_point_rectangle_eq in *.
  destruct (Rgt_dec (Rabs y2) _) as [_ | Ho2]; [exact Hnn |].
  destruct (Rgt_dec (Rabs y1) _) as [Ho1 | _]; [lra |].
  apply Rmult_le_compat_l; lra.
Qed.

Lemma Q_circle_mono (d : Dims) (y1 y2 : R) :
  Rabs y1 <= Rabs y2 -> Q_point "circle" d y2 <= Q_point "circle" d y1.
Proof.
  intros H12. pose proof (Q_circle_nonneg d y1) as Hnn.
  pose proof (Rabs_le_sqr _ _ H12) as Hs.
  rewrite !Q_point_circle_eq in *.
  destruct (Rgt_dec (Rabs y2) _) as [_ | Ho2]; [exact Hnn |].
  destruct (Rgt_dec (Rabs y1) _) as [Ho1 | _]; [lra |].
  apply Rnot_gt_le, Rabs_sqr_le in Ho2.
  assert (pow_3_2 ((circleDiameterSI d / 2) ^ 2 - y2 ^ 2)
          <= pow_3_2 ((circleDiameterSI d / 2) ^ 2 - y1 ^ 2))
    by (apply pow_3_2_le; nra).
  lra.
Qed.

Lemma Q_iBeam_mono_thin_flange (d : Dims) (y1 y2 : R) :
  valid_iBeam d -> iBeamFlangeThickSI d <= 2 -> Rabs y1 <= Rabs y2 ->
  Q_point "iBeam" d y2 <= Q_point "iBeam" d y1.
Proof.
  intros Hv Hthin H12. pose proof (Q_iBeam_nonneg d y1 Hv) as Hnn.
  destruct Hv as (Hh & Hbf & Htf & Htw & Hweb).
  rewrite !Q_point_iBeam_eq in *.
  unfold iBeam_web_arm, iBeam_flange_arm in *; simpl in *.
  pose proof (Rabs_pos y1) as Hp1.
  set (h := iBeamDepthSI d) in *. set (bf := iBeamFlangeWidthSI d) in *.
  set (tf := iBeamFlangeThickSI d) in *. set (tw := iBeamWebThickSI d) in *.
  set (a1 := Rabs y1) in *. set (a2 := Rabs y2) in *.
  destruct (Rgt_dec a2 _) as [_ | Ho2]; [exact Hnn |].
  destruct (Rgt_dec a1 _) as [Ho1 | _]; [lra |].
  assert (Hweb_eq : forall a,
            tw * (h / 2 - tf - a) * ((h / 2 - tf + a) / 2)
            = tw * ((h / 2 - tf) * (h / 2 - tf) - a * a) / 2)
    by (intros a; field).
  assert (Hfl_eq : forall a,
            bf * (h / 2 - a) * ((h / 2 - a) / 2)
            = bf * ((h / 2 - a) * (h / 2 - a)) / 2)
    by (intros a; field).
  destruct (Rle_dec a2 _) as [Hw2 | Hf2].
  - destruct (Rle_dec a1 _) as [_ | Hf1]; [| lra].
    rewrite !Hweb_eq.
    assert (tw * (a1 * a1) <= tw * (a2 * a2))
      by (apply Rmult_le_compat_l; nra).
    lra.
  - assert (Hfl2 : 0 <= h / 2 - a2 < tf) by lra.
    destruct (Rle_dec a1 _) as [Hw1 | Hf1].
    + rewrite Hweb_eq, Hfl_eq.
      assert (0 <= tw * ((h / 2 - tf) * (h / 2 - tf) - a1 * a1))
        by (apply Rmult_le_pos; nra).
      assert (bf * ((h / 2 - a2) * (h / 2 - a2)) <= bf * (tf * tf))
        by (apply Rmult_le_compat_l; nra).
      assert (Hbt : 0 < bf * tf) by (apply Rmult_lt_0_compat; assumption).
      assert (bf * (tf * tf) <= 2 * (bf * tf)) by nra.
      lra.
    + rewrite !Hfl_eq.
      assert (bf * ((h / 2 - a2) * (h / 2 - a2)) <= bf * ((h / 2 - a1) * (h / 2 - a1)))
        by (apply Rmult_le_compat_l; nra).
      lra.
Qed.

(** X3. For valid dimensions the first moment does not grow with the
    distance from the neutral axis: [|y1| <= |y2|] gives
    [Q(y2) <= Q(y1)], for the rectangle, the solid circle and the hollow
    circle, and for the I-beam while its flange is at most [2] thick. *)
Theorem Q_point_decreases_outwards
    (sectionType : string) (d : Dims) (y1 y2 : R) :
  valid_dims sectionType d ->
  (sectionType = "iBeam" -> iBeamFlangeThickSI d <= 2) ->
  Rabs y1 <= Rabs y2 ->
  Q_point sectionType d y2 <= Q_point sectionType d y1.
Proof.
  intros [(-> & Hv) | [(-> & Hv) | [(-> & Hv) | (-> & Hv)]]] Hthin H12.
  - now apply Q_rectangle_mono.
  - now apply Q_circle_mono.
  - now apply Q_hollowCircle_mono.
  - apply Q_iBeam_mono_thin_flange; auto.
Qed.

Lemma Q_point_decreases_outwards_witness :
  valid_dims "hollowCircle" (hollow_dims 2 1) /\
  ("hollowCircle" = "iBeam" -> iBeamFlangeThickSI (hollow_dims 2 1) <= 2) /\
  Rabs 0.5 <= Rabs 1.5 /\
  Q_point "hollowCircle" (hollow_dims 2 1) 1.5 <=
  Q_point "hollowCircle" (hollow_dims 2 1) 0.5.
Proof.
  assert (Hv : valid_dims "hollowCircle" (hollow_dims 2 1)).
  { right; right; left. split; [reflexivity |].
    unfold valid_hollowCircle; simpl; lra. }
  assert (Ht : "hollowCircle" = "iBeam" -> iBeamFlangeThickSI (hollow_dims 2 1) <= 2)
    by (intros _; simpl; lra).
  assert (Hy : Rabs 0.5 <= Rabs 1.5)
    by (rewrite !Rabs_pos_eq; lra).
  split; [exact Hv |]. split; [exact Ht |]. split; [exact Hy |].
  exact (Q_point_decreases_outwards "hollowCircle" (hollow_dims 2 1) 0.5 1.5 Hv Ht Hy).
Defined.

(* ================================================================= *)
(** ** Scaling *)

Lemma pow_3_2_scale (k x : R) :
  0 <= k -> 0 <= x -> pow_3_2 (k * k * x) = k * k * k * pow_3_2 x.
Proof.
  intros Hk Hx. unfold pow_3_2.
  rewrite sqrt_mult by nra. rewrite sqrt_square by assumption. ring.
Qed.

Lemma Rabs_scale (k y : R) : 0 <= k -> Rabs (k * y) = k * Rabs y.
Proof. intros Hk. rewrite Rabs_mult, (Rabs_pos_eq k) by assumption. reflexivity. Qed.

Lemma scaled_sectionProps (sectionType : string) (d : Dims) (k : R) :
  0 < k ->
  sectionProps sectionType (scale_dims k d) =
  let p := sectionProps sectionType d in
  {| area := k ^ 2 * area p;
     inertia := k ^ 4 * inertia p;
     polarInertia := k ^ 4 * polarInertia p;
     outerRadius := k * outerRadius p;
     shearThickness := k * shearThickness p |}.
Proof.
  intros Hk. unfold sectionProps, Math_PI.
  destruct (sectionType =? "rectangle").
  { simpl. rewrite !Math_pow_3. f_equal; field. }
  destruct (sectionType =? "circle").
  { simpl. rewrite !Math_pow_2, !Math_pow_4. f_equal; field. }
  destruct (sectionType =? "hollowCircle").
  { simpl.
    destruct (Rge_dec (hollowInnerSI d) (hollowOuterSI d)) as [Hge | Hlt];
      destruct (Rge_dec (k * hollowInnerSI d) (k * hollowOuterSI d)) as [Hge' | Hlt'];
      try nra.
    - simpl. f_equal; ring.
    - simpl. rewrite !Math_pow_2, !Math_pow_4. f_equal; field. }
  destruct (sectionType =? "iBeam").
  { simpl. rewrite !Math_pow_3. f_equal; field. }
  unfold initialProps; simpl. f_equal; ring.
Qed.

(** X4. Multiplying every dimension by [k > 0] multiplies the area by
    [k^2], both moments of inertia by [k^4] and the outer radius and the
    shear thickness by [k], for every tag; the degenerate hollow circle
    stays degenerate. *)
Theorem sectionProps_scale (sectionType : string) (d : Dims) (k : R) :
  0 < k ->
  sectionProps sectionType (scale_dims k d) =
  let p := sectionProps sectionType d in
  {| area := k ^ 2 * area p;
     inertia := k ^ 4 * inertia p;
     polarInertia := k ^ 4 * polarInertia p;
     outerRadius := k * outerRadius p;
     shearThickness := k * shearThickness p |}.
Proof. exact (scaled_sectionProps sectionType d k). Qed.

Lemma sectionProps_scale_witness :
  0 < 1000 /\
  sectionProps "iBeam" (scale_dims 1000 (iBeam_dims 8 4 1 1)) =
  let p := sectionProps "iBeam" (iBeam_dims 8 4 1 1) in
  {| area := 1000 ^ 2 * area p;
     inertia := 1000 ^ 4 * inertia p;
     polarInertia := 1000 ^ 4 * polarInertia p;
     outerRadius := 1000 * outerRadius p;
     shearThickness := 1000 * shearThickness p |}.
Proof.
  assert (Hk : 0 < 1000) by lra.
  split; [exact Hk |].
  exact (sectionProps_scale "iBeam" (iBeam_dims 8 4 1 1) 1000 Hk).
Defined.

Lemma scaled_Q_point (sectionType : string) (d : Dims) (k y : R) :
  0 < k -> sectionType <> "iBeam" ->
  Q_point sectionType (scale_dims k d) (k * y) = k ^ 3 * Q_point sectionType d y.
Proof.
  intros Hk Hni. unfold Q_point.
  rewrite (Rabs_scale k y) by lra.
  destruct (sectionType =? "rectangle").
  { simpl. rewrite !Math_pow_2.
    destruct (Rgt_dec (Rabs y) _) as [H | H];
      destruct (Rgt_dec (k * Rabs y) _) as [H' | H']; try nra; field. }
  destruct (sectionType =? "circle").
  { simpl.
    destruct (Rgt_dec (Rabs y) _) as [H | H];
      destruct (Rgt_dec (k * Rabs y) _) as [H' | H']; try nra.
    apply Rnot_gt_le, Rabs_sqr_le in H.
    replace (k * circleDiameterSI d / 2 * (k * circleDiameterSI d / 2) - k * y * (k * y))
      with (k * k * (circleDiameterSI d / 2 * (circleDiameterSI d / 2) - y * y)) by field.
    rewrite !Math_pow_1_5 by nra. rewrite pow_3_2_scale by lra. ring. }
  destruct (String.eqb_spec sectionType "hollowCircle") as [-> | _].
  { simpl.
    destruct (Rgt_dec (Rabs y) _) as [H | H];
      destruct (Rgt_dec (k * Rabs y) _) as [H' | H']; try nra.
    apply Rnot_gt_le, Rabs_sqr_le in H.
    replace (k * hollowOuterSI d * (k * hollowOuterSI d) - k * y * (k * y))
      with (k * k * (hollowOuterSI d * hollowOuterSI d - y * y)) by ring.
    replace (k * hollowInnerSI d * (k * hollowInnerSI d) - k * y * (k * y))
      with (k * k * (hollowInnerSI d * hollowInnerSI d - y * y)) by ring.
    destruct (Rle_dec (Rabs y) _) as [Hi | Hi];
      destruct (Rle_dec (k * Rabs y) _) as [Hi' | Hi']; try nra.
    - apply Rabs_sqr_le in Hi.
      rewrite !Math_pow_1_5 by nra. rewrite !pow_3_2_scale by lra. ring.
    - rewrite !Math_pow_1_5 by nra. rewrite !pow_3_2_scale by lra. ring. }
  destruct (String.eqb_spec sectionType "iBeam") as [-> | _]; [contradiction |].
  ring.
Qed.

(** X5. For every tag but [iBeam], multiplying every dimension and the
    ordinate by [k > 0] multiplies the first moment by [k^3]. *)
Theorem Q_point_scale (sectionType : string) (d : Dims) (k y : R) :
  0 < k -> sectionType <> "iBeam" ->
  Q_point sectionType (scale_dims k d) (k * y) = k ^ 3 * Q_point sectionType d y.
Proof. exact (scaled_Q_point sectionType d k y). Qed.

Lemma Q_point_scale_witness :
  0 < 1000 /\ "circle" <> "iBeam" /\
  Q_point "circle" (scale_dims 1000 (circle_dims 2)) (1000 * 0.5) =
  1000 ^ 3 * Q_point "circle" (circle_dims 2) 0.5.
Proof.
  assert (Hk : 0 < 1000) by lra.
  assert (Hn : "circle" <> "iBeam") by discriminate.
  split; [exact Hk |]. split; [exact Hn |].
  exact (Q_point_scale "circle" (circle_dims 2) 1000 0.5 Hk Hn).
Defined.

(** The I-beam arm does not scale that way: doubling the I-beam
    [h = 8, bf = 4, tf = 1, tw = 1] and the ordinate [2] multiplies the
    first moment by [36 / 6.5], not by [8]. *)
Lemma Q_point_iBeam_does_not_scale :
  Q_point "iBeam" (iBeam_dims 8 4 1 1) 2 = 6.5 /\
  Q_point "iBeam" (scale_dims 2 (iBeam_dims 8 4 1 1)) (2 * 2) = 36.
Proof.
  rewrite !Q_point_iBeam_eq. unfold iBeam_web_arm, iBeam_flange_arm; simpl.
  rewrite (Rabs_pos_eq 2), (Rabs_pos_eq (2 * 2)) by lra.
  split; repeat settle_guard.
Qed.

(* ================================================================= *)
(** ** Sections that coincide *)

(** X6. An I-beam whose web is as thick as its flanges are wide is a solid
    rectangle, and [sectionProps] gives it the area, the inertia, the outer
    radius and the shear thickness of that rectangle; its polar inertia is
    a quarter of the rectangle's. *)
Theorem sectionProps_solid_iBeam (d : Dims) :
  iBeamWebThickSI d = iBeamFlangeWidthSI d ->
  rectWidthSI d = iBeamFlangeWidthSI d ->
  rectHeightSI d = iBeamDepthSI d ->
  let pI := sectionProps "iBeam" d in
  let pR := sectionProps "rectangle" d in
  area pI = area pR /\
  inertia pI = inertia pR /\
  outerRadius pI = outerRadius pR /\
  shearThickness pI = shearThickness pR /\
  polarInertia pR = 4 * polarInertia pI.
Proof.
  intros Hw Hb Hh. rewrite sectionProps_iBeam, sectionProps_rectangle; simpl.
  rewrite Hw, Hb, Hh. repeat split; field.
Qed.

Lemma sectionProps_solid_iBeam_witness :
  let d := {| rectWidthSI := 1; rectHeightSI := 8; circleDiameterSI := 2;
              hollowOuterSI := 2; hollowInnerSI := 1;
              iBeamDepthSI := 8; iBeamFlangeWidthSI := 1;
              iBeamFlangeThickSI := 1; iBeamWebThickSI := 1 |} in
  area (sectionProps "iBeam" d) = area (sectionProps "rectangle" d) /\
  inertia (sectionProps "iBeam" d) = inertia (sectionProps "rectangle" d) /\
  outerRadius (sectionProps "iBeam" d) = outerRadius (sectionProps "rectangle" d) /\
  shearThickness (sectionProps "iBeam" d) = shearThickness (sectionProps "rectangle" d) /\
  polarInertia (sectionProps "rectangle" d) = 4 * polarInertia (sectionProps "iBeam" d).
Proof.
  intros d.
  apply (sectionProps_solid_iBeam d); reflexivity.
Defined.

(** X7. A hollow circle without a bore ([Ri = 0]) is the solid circle of
    diameter [2 Ro]: [sectionProps] gives both the same area, inertia,
    polar inertia and outer radius, and [Q_point] gives both the same first
    moment at every ordinate.  Only the shear thickness differs: [Ro] for
    the hollow circle, the diameter for the solid one. *)
Theorem hollowCircle_without_bore (d : Dims) (y : R) :
  hollowInnerSI d = 0 -> 0 < hollowOuterSI d ->
  circleDiameterSI d = 2 * hollowOuterSI d ->
  let pH := sectionProps "hollowCircle" d in
  let pC := sectionProps "circle" d in
  area pH = area pC /\
  inertia pH = inertia pC /\
  polarInertia pH = polarInertia pC /\
  outerRadius pH = outerRadius pC /\
  2 * shearThickness pH = shearThickness pC /\
  Q_point "hollowCircle" d y = Q_point "circle" d y.
Proof.
  intros Hi Ho Hd.
  rewrite sectionProps_hollow_regular by lra.
  rewrite sectionProps_circle; simpl.
  rewrite Q_point_hollowCircle_eq, Q_point_circle_eq.
  rewrite Hi, Hd.
  replace (2 * hollowOuterSI d / 2) with (hollowOuterSI d) by field.
  repeat split; try field.
  destruct (Rgt_dec _ _) as [_ | Hin]; [reflexivity |].
  destruct (Rle_dec _ _) as [H0 | _]; [| reflexivity].
  assert (Hy : y = 0).
  { destruct (Req_dec y 0) as [E | N]; [exact E |].
    apply Rabs_pos_lt in N. lra. }
  rewrite Hy. replace (0 ^ 2 - 0 ^ 2) with 0 by ring.
  rewrite pow_3_2_0. ring.
Qed.

Lemma hollowCircle_without_bore_witness :
  let d := {| rectWidthSI := 1; rectHeightSI := 2; circleDiameterSI := 4;
              hollowOuterSI := 2; hollowInnerSI := 0;
              iBeamDepthSI := 8; iBeamFlangeWidthSI := 4;
              iBeamFlangeThickSI := 1; iBeamWebThickSI := 1 |} in
  area (sectionProps "hollowCircle" d) = area (sectionProps "circle" d) /\
  inertia (sectionProps "hollowCircle" d) = inertia (sectionProps "circle" d) /\
  polarInertia (sectionProps "hollowCircle" d) = polarInertia (sectionProps "circle" d) /\
  outerRadius (sectionProps "hollowCircle" d) = outerRadius (sectionProps "circle" d) /\
  2 * shearThickness (sectionProps "hollowCircle" d) = shearThickness (sectionProps "circle" d) /\
  Q_point "hollowCircle" d 1 = Q_point "circle" d 1.
Proof.
  intros d.
  apply (hollowCircle_without_bore d 1); simpl; lra.
Defined.

(* ================================================================= *)
(** ** The stresses of a section *)

(** X8. Mirroring the ordinate about the neutral axis changes the sign of
    the bending stress and leaves the axial stress, the torsional shear and
    the transverse shear unchanged, for every tag, dimension set and load
    set. *)
Theorem stresses_mirror (sectionType : string) (d : Dims) (l : Loads R) (y : R) :
  let s := stressesAt sectionType d l y in
  let s' := stressesAt sectionType d l (- y) in
  axial s' = axial s /\
  bending s' = - bending s /\
  torsionalShear s' = torsionalShear s /\
  transverseShear s' = transverseShear s.
Proof.
  unfold stressesAt, stressesR; simpl.
  unfold bendingStressSI, torsionalShearSI, transverseShearSI.
  rewrite Q_point_even, Rabs_Ropp. repeat split. unfold Rdiv. ring.
Qed.

(** X9. Inside a valid section, [|y| <= outerRadius], the bending stress
    and the torsional shear are bounded by their values at the outer fibre:
    [|bending| <= |M| * outerRadius / inertia] and
    [|torsionalShear| <= |T| * outerRadius / polarInertia]. *)
Theorem stresses_bounded_by_outer_fibre
    (sectionType : string) (d : Dims) (l : Loads R) (y : R) :
  valid_dims sectionType d ->
  let p := sectionProps sectionType d in
  Rabs y <= outerRadius p ->
  Rabs (bending (stressesAt sectionType d l y))
    <= Rabs (momentSI l) * outerRadius p / inertia p /\
  Rabs (torsionalShear (stressesAt sectionType d l y))
    <= Rabs (torqueSI l) * outerRadius p / polarInertia p.
Proof.
  intros Hv p Hy.
  destruct (sectionProps_positive _ _ Hv) as (_ & HI & HJ & _).
  fold p in HI, HJ.
  unfold stressesAt, stressesR; simpl.
  unfold bendingStressSI, torsionalShearSI. fold p.
  unfold Rdiv. rewrite !Rabs_mult, Rabs_Rabsolu.
  rewrite (Rabs_pos_eq (/ inertia p)), (Rabs_pos_eq (/ polarInertia p))
    by (apply Rlt_le, Rinv_0_lt_compat; assumption).
  pose proof (Rabs_pos (momentSI l)). pose proof (Rabs_pos (torqueSI l)).
  pose proof (Rinv_0_lt_compat _ HI). pose proof (Rinv_0_lt_compat _ HJ).
  split; apply Rmult_le_compat_r; try lra; apply Rmult_le_compat_l; lra.
Qed.

Lemma stresses_bounded_by_outer_fibre_witness :
  let d := rect_dims 1 2 in
  let l := {| forceSI := 1000; momentSI := 1000; torqueSI := 1000;
              shearForceSI := 500 |} in
  let p := sectionProps "rectangle" d in
  valid_dims "rectangle" d /\
  Rabs 0.5 <= outerRadius p /\
  Rabs (bending (stressesAt "rectangle" d l 0.5))
    <= Rabs 1000 * outerRadius p / inertia p /\
  Rabs (torsionalShear (stressesAt "rectangle" d l 0.5))
    <= Rabs 1000 * outerRadius p / polarInertia p.
Proof.
  intros d l p.
  assert (Hv : valid_dims "rectangle" d).
  { left. split; [reflexivity |]. unfold valid_rectangle; simpl; lra. }
  assert (Hy : Rabs 0.5 <= outerRadius p).
  { subst p. rewrite sectionProps_rectangle; simpl. rewrite Rabs_pos_eq; lra. }
  split; [exact Hv |]. split; [exact Hy |].
  exact (stresses_bounded_by_outer_fibre "rectangle" d l 0.5 Hv Hy).
Defined.

(** X10. Rectangle: inside the section the transverse shear is the
    parabola [3 V / (2 A) * (1 - (2 y / h)^2)] with [A = b h], hence
    [1.5 V / A] on the neutral axis. *)
Theorem rectangle_transverse_shear (d : Dims) (l : Loads R) (y : R) :
  valid_rectangle d ->
  Rabs y <= rectHeightSI d / 2 ->
  let b := rectWidthSI d in
  let h := rectHeightSI d in
  transverseShear (stressesAt "rectangle" d l y) =
  3 * shearForceSI l / (2 * (b * h)) * (1 - (2 * y / h) ^ 2).
Proof.
  intros [Hb Hh] Hy b h. subst b h.
  unfold stressesAt, stressesR; simpl. unfold transverseShearSI.
  rewrite sectionProps_rectangle, Q_point_rectangle_eq; simpl.
  destruct (Rgt_dec _ _) as [Hgt | _]; [lra |].
  field. lra.
Qed.

Lemma rectangle_transverse_shear_witness :
  let d := rect_dims 1 2 in
  let l := {| forceSI := 1000; momentSI := 1000; torqueSI := 1000;
              shearForceSI := 500 |} in
  valid_rectangle d /\ Rabs 0 <= 2 / 2 /\
  transverseShear (stressesAt "rectangle" d l 0) =
  3 * 500 / (2 * (1 * 2)) * (1 - (2 * 0 / 2) ^ 2).
Proof.
  intros d l.
  assert (Hv : valid_rectangle d) by (unfold valid_rectangle; simpl; lra).
  assert (Hy : Rabs 0 <= rectHeightSI d / 2) by (rewrite Rabs_R0; simpl; lra).
  split; [exact Hv |]. split; [rewrite Rabs_R0; lra |].
  exact (rectangle_transverse_shear d l 0 Hv Hy).
Defined.

(** X11. Solid circle: on the neutral axis the transverse shear is
    [4 V / (3 A)] with [A] the area of the circle. *)
Theorem circle_transverse_shear_neutral_axis (d : Dims) (l : Loads R) :
  valid_circle d ->
  transverseShear (stressesAt "circle" d l 0) =
  4 * shearForceSI l / (3 * area (sectionProps "circle" d)).
Proof.
  unfold valid_circle. intros Hd. pose proof PI_RGT_0 as Hpi.
  unfold stressesAt, stressesR; simpl. unfold transverseShearSI.
  rewrite sectionProps_circle, Q_point_circle_eq, Rabs_R0; simpl.
  destruct (Rgt_dec _ _) as [Hgt | _]; [lra |].
  replace (circleDiameterSI d / 2 * (circleDiameterSI d / 2 * 1) - 0 * (0 * 1))
    with ((circleDiameterSI d / 2) ^ 2 - 0 ^ 2) by ring.
  rewrite pow_3_2_square by lra.
  unfold Math_PI. rewrite Math_pow_2.
  field. lra.
Qed.

Lemma circle_transverse_shear_neutral_axis_witness :
  let l := {| forceSI := 1000; momentSI := 1000; torqueSI := 1000;
              shearForceSI := 500 |} in
  valid_circle (circle_dims 2) /\
  transverseShear (stressesAt "circle" (circle_dims 2) l 0) =
  4 * 500 / (3 * area (sectionProps "circle" (circle_dims 2))).
Proof.
  intros l.
  assert (Hv : valid_circle (circle_dims 2)) by (unfold valid_circle; simpl; lra).
  split; [exact Hv |].
  exact (circle_transverse_shear_neutral_axis (circle_dims 2) l Hv).
Defined.

(** X12. At the outer fibre the bending stress of a rectangle is
    [6 M / (b h^2)]; for a solid circle the bending stress is
    [32 M / (PI d^3)] and the torsional shear [16 T / (PI d^3)]. *)
Theorem outer_fibre_stresses (d : Dims) (l : Loads R) :
  (valid_rectangle d ->
     bending (stressesAt "rectangle" d l (rectHeightSI d / 2)) =
     6 * momentSI l / (rectWidthSI d * rectHeightSI d ^ 2)) /\
  (valid_circle d ->
     bending (stressesAt "circle" d l (circleDiameterSI d / 2)) =
     32 * momentSI l / (PI * circleDiameterSI d ^ 3) /\
     torsionalShear (stressesAt "circle" d l (circleDiameterSI d / 2)) =
     16 * torqueSI l / (PI * circleDiameterSI d ^ 3)).
Proof.
  pose proof PI_RGT_0 as Hpi.
  unfold stressesAt, stressesR; simpl.
  unfold bendingStressSI, torsionalShearSI.
  rewrite sectionProps_rectangle, sectionProps_circle; simpl.
  split.
  - intros [Hb Hh]. field. lra.
  - unfold valid_circle. intros Hd.
    rewrite Rabs_pos_eq by lra. split; field; lra.
Qed.

Lemma outer_fibre_stresses_witness :
  let l := {| forceSI := 1000; momentSI := 1000; torqueSI := 1000;
              shearForceSI := 500 |} in
  (valid_rectangle (rect_dims 1 2) /\
   bending (stressesAt "rectangle" (rect_dims 1 2) l (2 / 2)) =
   6 * 1000 / (1 * 2 ^ 2)) /\
  (valid_circle (circle_dims 2) /\
   bending (stressesAt "circle" (circle_dims 2) l (2 / 2)) =
   32 * 1000 / (PI * 2 ^ 3) /\
   torsionalShear (stressesAt "circle" (circle_dims 2) l (2 / 2)) =
   16 * 1000 / (PI * 2 ^ 3)).
Proof.
  intros l.
  assert (Hr : valid_rectangle (rect_dims 1 2))
    by (unfold valid_rectangle; simpl; lra).
  assert (Hc : valid_circle (circle_dims 2))
    by (unfold valid_circle; simpl; lra).
  split.
  - split; [exact Hr |].
    exact (proj1 (outer_fibre_stresses (rect_dims 1 2) l) Hr).
  - split; [exact Hc |].
    exact (proj2 (outer_fibre_stresses (circle_dims 2) l) Hc).
Defined.

(** X13. For valid dimensions the stresses are additive in the loads: the
    stresses under the sum of two load sets are the sums of the stresses
    under each. *)
Theorem stresses_superpose
    (sectionType : string) (d : Dims) (l1 l2 : Loads R) (y : R) :
  valid_dims sectionType d ->
  let l := {| forceSI := forceSI l1 + forceSI l2;
              momentSI := momentSI l1 + momentSI l2;
              torqueSI := torqueSI l1 + torqueSI l2;
              shearForceSI := shearForceSI l1 + shearForceSI l2 |} in
  stressesAt sectionType d l y =
  {| axial := axial (stressesAt sectionType d l1 y)
              + axial (stressesAt sectionType d l2 y);
     bending := bending (stressesAt sectionType d l1 y)
                + bending (stressesAt sectionType d l2 y);
     torsionalShear := torsionalShear (stressesAt sectionType d l1 y)
                       + torsionalShear (stressesAt sectionType d l2 y);
     transverseShear := transverseShear (stressesAt sectionType d l1 y)
                        + transverseShear (stressesAt sectionType d l2 y) |}.
Proof.
  intros _.
  unfold stressesAt, stressesR, computeStresses; simpl.
  unfold axialStressSI, bendingStressSI, torsionalShearSI, transverseShearSI; simpl.
  unfold Rdiv. f_equal; ring.
Qed.

Lemma stresses_superpose_witness :
  let d := rect_dims 1 2 in
  let l1 := {| forceSI := 1; momentSI := 2; torqueSI := 3; shearForceSI := 4 |} in
  let l2 := {| forceSI := - (2); momentSI := 1; torqueSI := 1; shearForceSI := 1 |} in
  let l := {| forceSI := 1 + - (2); momentSI := 2 + 1; torqueSI := 3 + 1;
              shearForceSI := 4 + 1 |} in
  valid_dims "rectangle" d /\
  stressesAt "rectangle" d l 0.5 =
  {| axial := axial (stressesAt "rectangle" d l1 0.5)
              + axial (stressesAt "rectangle" d l2 0.5);
     bending := bending (stressesAt "rectangle" d l1 0.5)
                + bending (stressesAt "rectangle" d l2 0.5);
     torsionalShear := torsionalShear (stressesAt "rectangle" d l1 0.5)
                       + torsionalShear (stressesAt "rectangle" d l2 0.5);
     transverseShear := transverseShear (stressesAt "rectangle" d l1 0.5)
                        + transverseShear (stressesAt "rectangle" d l2 0.5) |}.
Proof.
  intros d l1 l2 l.
  assert (Hv : valid_dims "rectangle" d).
  { left. split; [reflexivity |]. unfold valid_rectangle; simpl; lra. }
  split; [exact Hv |].
  exact (stresses_superpose "rectangle" d l1 l2 0.5 Hv).
Defined.

(* ================================================================= *)
(** ** Units *)

Lemma distanceFactor_in_mm (s : App.State) :
  App.distanceFactor (App.in_mm s) = 0.001.
Proof. reflexivity. Qed.

Lemma distanceFactor_not_mm (s : App.State) :
  App.distanceUnit s <> "mm" -> App.distanceFactor s = 1.
Proof.
  intros H. unfold App.distanceFactor.
  destruct (String.eqb_spec (App.distanceUnit s) "mm"); [contradiction | reflexivity].
Qed.

Lemma forceFactor_not_kN (s : App.State) :
  App.forceUnit s <> "kN" -> App.forceFactor s = 1.
Proof.
  intros H. unfold App.forceFactor.
  destruct (String.eqb_spec (App.forceUnit s) "kN"); [contradiction | reflexivity].
Qed.

(** In real arithmetic the conversion of an input entered in millimetres
    gives back the SI dimensions, loads and ordinate of the input entered
    in metres. *)
Lemma SI_in_mm (s : App.State) :
  App.distanceUnit s <> "mm" ->
  App.dimsSI (App.in_mm s) = App.dimsSI s /\
  App.loadsSI (App.in_mm s) = App.loadsSI s /\
  App.pointYSI (App.in_mm s) = App.pointYSI s.
Proof.
  intros Hm. pose proof (distanceFactor_not_mm s Hm) as H1.
  repeat split.
  - unfold App.dimsSI. rewrite distanceFactor_in_mm, H1. simpl. f_equal; lra.
  - unfold App.loadsSI. rewrite distanceFactor_in_mm, H1.
    change (App.forceFactor (App.in_mm s)) with (App.forceFactor s).
    simpl. f_equal; lra.
  - unfold App.pointYSI. rewrite distanceFactor_in_mm, H1. simpl. lra.
Qed.

(** X14. For a valid section other than the I-beam, entering the same beam
    in millimetres instead of metres (every length and both moments a
    thousand times larger, unit ["mm"]) leaves the displayed stresses
    unchanged.  The I-beam is left out: its first moment jumps at the root
    of the flange, where the rounding of the conversion can decide the
    arm. *)
Theorem display_in_mm (s : App.State) :
  App.distanceUnit s <> "mm" ->
  App.sectionType s <> "iBeam" ->
  valid_dims (App.sectionType s) (App.dimsSI s) ->
  App.stressesDisplay (App.in_mm s) = App.stressesDisplay s.
Proof.
  intros Hm _ _. destruct (SI_in_mm s Hm) as (Hd & Hl & Hy).
  unfold App.stressesDisplay, App.stressesSI. rewrite Hd, Hl, Hy. reflexivity.
Qed.

Lemma display_in_mm_witness :
  App.distanceUnit App.initial <> "mm" /\
  App.sectionType App.initial <> "iBeam" /\
  valid_dims (App.sectionType App.initial) (App.dimsSI App.initial) /\
  App.stressesDisplay (App.in_mm App.initial) = App.stressesDisplay App.initial.
Proof.
  assert (H : App.distanceUnit App.initial <> "mm") by discriminate.
  assert (Hi : App.sectionType App.initial <> "iBeam") by discriminate.
  assert (Hv : valid_dims (App.sectionType App.initial) (App.dimsSI App.initial)).
  { left. split; [reflexivity |].
    unfold valid_rectangle, App.dimsSI, App.distanceFactor; simpl; lra. }
  split; [exact H |]. split; [exact Hi |]. split; [exact Hv |].
  exact (display_in_mm App.initial H Hi Hv).
Defined.

(** In binary64 the I-beam does depend on the unit.  The I-beam
    [h = 52], [tf = 5], [bf = 30], [tw = 4] millimetres at [y = 21]
    millimetres, the root of its flange: entered in metres ([0.052], ...)
    the rounded [hd - tf] falls below [y] and the flange arm is taken;
    entered in millimetres and multiplied by [0.001] it does not, the web
    arm is taken and the first moment is more than a hundred times
    larger. *)
Example iBeam_root_depends_on_unit_binary64 :
  let metres z := Binary64.div (Binary64.of_Z z) (Binary64.of_Z 1000) in
  let distanceFactor := Binary64.div (Binary64.of_Z 1) (Binary64.of_Z 1000) in
  let millimetres z := Binary64.mul (Binary64.of_Z z) distanceFactor in
  let Q_m := Binary64.Q_point_iBeam (metres 52%Z) (metres 5%Z) (metres 30%Z)
               (metres 4%Z) (metres 21%Z) in
  let Q_mm := Binary64.Q_point_iBeam (millimetres 52%Z) (millimetres 5%Z)
                (millimetres 30%Z) (millimetres 4%Z) (millimetres 21%Z) in
  Binary64.gtb Q_mm (Binary64.mul (Binary64.of_Z 100) Q_m) = true.
Proof. vm_compute. reflexivity. Qed.

(** X15. Entering the same loads in kilonewtons instead of newtons (every
    load a thousandth, unit ["kN"]) leaves the SI loads, and so the
    displayed stresses, unchanged. *)
Theorem display_in_kN (s : App.State) :
  App.forceUnit s <> "kN" ->
  App.loadsSI (App.in_kN s) = App.loadsSI s /\
  App.stressesDisplay (App.in_kN s) = App.stressesDisplay s.
Proof.
  intros Hk. pose proof (forceFactor_not_kN s Hk) as H1.
  assert (Hl : App.loadsSI (App.in_kN s) = App.loadsSI s).
  { unfold App.loadsSI.
    change (App.forceFactor (App.in_kN s)) with 1000.
    change (App.distanceFactor (App.in_kN s)) with (App.distanceFactor s).
    rewrite H1. simpl. f_equal; field. }
  split; [exact Hl |].
  unfold App.stressesDisplay, App.stressesSI. rewrite Hl. reflexivity.
Qed.

Lemma display_in_kN_witness :
  App.forceUnit App.initial <> "kN" /\
  App.stressesDisplay (App.in_kN App.initial) = App.stressesDisplay App.initial.
Proof.
  assert (H : App.forceUnit App.initial <> "kN") by discriminate.
  split; [exact H |].
  exact (proj2 (display_in_kN App.initial H)).
Defined.

Lemma dimsSI_scale (s : App.State) :
  App.dimsSI s = scale_dims (App.distanceFactor s) (App.enteredDims s).
Proof. unfold App.dimsSI, scale_dims; simpl. f_equal; ring. Qed.

Lemma shearThickness_positive (sectionType : string) (d : Dims) :
  valid_dims sectionType d -> 0 < shearThickness (sectionProps sectionType d).
Proof.
  intros [(-> & Hb & Hh) | [(-> & Hd) | [(-> & Hi & Hio) | (-> & Hv)]]].
  - rewrite sectionProps_rectangle; simpl; lra.
  - rewrite sectionProps_circle; simpl. exact Hd.
  - rewrite sectionProps_hollow_regular by assumption; simpl; lra.
  - rewrite sectionProps_iBeam; simpl. destruct Hv as (_ & _ & _ & Htw & _). exact Htw.
Qed.

(** X16. With newtons, millimetres and megapascals selected, and a valid
    section other than the I-beam, the displayed stresses are those the
    formulas give on the entered numbers as they stand: the conversions to
    SI and back cancel ([N/mm^2 = MPa]). *)
Theorem display_N_mm_MPa (s : App.State) :
  App.forceUnit s <> "kN" ->
  App.distanceUnit s = "mm" ->
  App.pressureUnit s = "MPa" ->
  App.sectionType s <> "iBeam" ->
  valid_dims (App.sectionType s) (App.enteredDims s) ->
  App.stressesDisplay s =
  stressesAt (App.sectionType s) (App.enteredDims s) (App.enteredLoads s) (App.pointY s).
Proof.
  intros Hf Hd Hp Hni Hv.
  destruct (sectionProps_positive _ _ Hv) as (HA & HI & HJ & _).
  pose proof (shearThickness_positive _ _ Hv) as Ht.
  assert (Hk : 0 < 0.001) by lra.
  unfold App.stressesDisplay, App.stressesSI, stressesAt, stressesR,
    computeStresses; simpl.
  unfold axialStressSI, bendingStressSI, torsionalShearSI, transverseShearSI; simpl.
  rewrite dimsSI_scale. unfold App.pointYSI, App.pressureFactor.
  unfold App.distanceFactor. rewrite (forceFactor_not_kN s Hf), Hd, Hp. simpl.
  rewrite (Rmult_comm (App.pointY s) 0.001).
  rewrite (scaled_Q_point _ _ _ _ Hk Hni), (scaled_sectionProps _ _ _ Hk); simpl.
  rewrite (Rabs_scale 0.001) by lra.
  set (p := sectionProps (App.sectionType s) (App.enteredDims s)) in *.
  assert (E : 0.001 = / 1000) by lra. rewrite E.
  f_equal; field; lra.
Qed.

Lemma display_N_mm_MPa_witness :
  let s := App.in_mm (App.mkState "N" "m" "MPa" 1 1000 1000 1000 500
             "rectangle" 0.05 0.1 0.08 0.08 0.04 0.2 0.1 0.02 0.01 0) in
  App.stressesDisplay s =
  stressesAt (App.sectionType s) (App.enteredDims s) (App.enteredLoads s) (App.pointY s).
Proof.
  intros s. apply (display_N_mm_MPa s).
  - discriminate.
  - reflexivity.
  - reflexivity.
  - discriminate.
  - left. split; [reflexivity |]. unfold valid_rectangle; simpl; lra.
Defined.

(* ================================================================= *)
(** ** The earlier versions *)

(** X17. The version without the I-beam computes, for every tag but
    [iBeam], the section properties, the first moment and the four stresses
    that the final version computes from the same SI inputs; for the tag
    [iBeam] it returns the all-zero properties and a zero first moment. *)
Theorem Part001_agrees (s : Part001.State) :
  (Part001.sectionType s <> "iBeam" ->
     Part001.sectionProps s = sectionProps (Part001.sectionType s) (Part001.dims s) /\
     Part001.Q_point s =
       Q_point (Part001.sectionType s) (Part001.dims s) (Part001.pointY s) /\
     Part001.stresses s =
       stressesAt (Part001.sectionType s) (Part001.dims s) (Part001.loads s)
                  (Part001.pointY s)) /\
  (Part001.sectionType s = "iBeam" ->
     Part001.sectionProps s = initialProps /\ Part001.Q_point s = 0).
Proof.
  split.
  - intros Hni.
    assert (Hp : Part001.sectionProps s
                 = sectionProps (Part001.sectionType s) (Part001.dims s)).
    { unfold Part001.sectionProps, sectionProps.
      destruct (Part001.sectionType s =? "rectangle"); [reflexivity |].
      destruct (Part001.sectionType s =? "circle"); [reflexivity |].
      destruct (Part001.sectionType s =? "hollowCircle"); [reflexivity |].
      destruct (String.eqb_spec (Part001.sectionType s) "iBeam");
        [contradiction | reflexivity]. }
    assert (HQ : Part001.Q_point s
                 = Q_point (Part001.sectionType s) (Part001.dims s) (Part001.pointY s)).
    { unfold Part001.Q_point, Q_point.
      destruct (Part001.sectionType s =? "rectangle"); [reflexivity |].
      destruct (Part001.sectionType s =? "circle"); [reflexivity |].
      destruct (Part001.sectionType s =? "hollowCircle"); [reflexivity |].
      destruct (String.eqb_spec (Part001.sectionType s) "iBeam");
        [contradiction | reflexivity]. }
    repeat split; try assumption.
    unfold Part001.stresses, stressesAt. rewrite Hp, HQ. reflexivity.
  - intros Hi. unfold Part001.sectionProps, Part001.Q_point. rewrite Hi.
    split; reflexivity.
Qed.

Lemma Part001_agrees_witness :
  let s := Part001.mkState 1 1000 1000 1000 500 "hollowCircle" 1 2 2 2 1 0.5 in
  Part001.sectionType s <> "iBeam" /\
  Part001.stresses s =
    stressesAt (Part001.sectionType s) (Part001.dims s) (Part001.loads s)
               (Part001.pointY s).
Proof.
  intros s.
  assert (H : Part001.sectionType s <> "iBeam") by discriminate.
  split; [exact H |].
  exact (proj2 (proj2 (proj1 (Part001_agrees s) H))).
Defined.

(** X18. The version with the rectangle and the solid circle only, which
    writes the circle's properties with the diameter ([PI d^2 / 4],
    [PI d^4 / 64], [PI d^4 / 32]), computes for every tag but
    [hollowCircle] and [iBeam] the section properties, the first moment and
    the four stresses that the final version computes from the same SI
    inputs. *)
Theorem Part000_agrees (s : Part000.State) :
  Part000.sectionType s <> "hollowCircle" ->
  Part000.sectionType s <> "iBeam" ->
  Part000.sectionProps s = sectionProps (Part000.sectionType s) (Part000.dims s) /\
  Part000.Q_point s =
    Q_point (Part000.sectionType s) (Part000.dims s) (Part000.pointY s) /\
  Part000.stresses s =
    stressesAt (Part000.sectionType s) (Part000.dims s) (Part000.loads s)
               (Part000.pointY s).
Proof.
  intros Hnh Hni.
  assert (Hp : Part000.sectionProps s
               = sectionProps (Part000.sectionType s) (Part000.dims s)).
  { unfold Part000.sectionProps, sectionProps.
    destruct (Part000.sectionType s =? "rectangle"); [reflexivity |].
    destruct (Part000.sectionType s =? "circle").
    { simpl. rewrite !Math_pow_2, !Math_pow_4. f_equal; field. }
    destruct (String.eqb_spec (Part000.sectionType s) "hollowCircle");
      [contradiction |].
    destruct (String.eqb_spec (Part000.sectionType s) "iBeam");
      [contradiction | reflexivity]. }
  assert (HQ : Part000.Q_point s
               = Q_point (Part000.sectionType s) (Part000.dims s) (Part000.pointY s)).
  { unfold Part000.Q_point, Q_point.
    destruct (Part000.sectionType s =? "rectangle"); [reflexivity |].
    destruct (Part000.sectionType s =? "circle"); [reflexivity |].
    destruct (String.eqb_spec (Part000.sectionType s) "hollowCircle");
      [contradiction |].
    destruct (String.eqb_spec (Part000.sectionType s) "iBeam");
      [contradiction | reflexivity]. }
  repeat split; try assumption.
  unfold Part000.stresses, stressesAt. rewrite Hp, HQ. reflexivity.
Qed.

Lemma Part000_agrees_witness :
  let s := Part000.mkState 1 1000 1000 1000 500 "circle" 1 2 2 0.5 in
  Part000.sectionType s <> "hollowCircle" /\
  Part000.sectionType s <> "iBeam" /\
  Part000.stresses s =
    stressesAt (Part000.sectionType s) (Part000.dims s) (Part000.loads s)
               (Part000.pointY s).
Proof.
  intros s.
  assert (H1 : Part000.sectionType s <> "hollowCircle") by discriminate.
  assert (H2 : Part000.sectionType s <> "iBeam") by discriminate.
  split; [exact H1 |]. split; [exact H2 |].
  exact (proj2 (proj2 (Part000_agrees s H1 H2))).
Defined.

(* ================================================================= *)
(** ** Binary64: degenerate sections, NaN and signs *)

Close Scope R_scope.

Module Binary64More.
Import Binary64.

Lemma mul_nan_l (x : float) : mul S754_nan x = S754_nan.
Proof. reflexivity. Qed.

Lemma mul_nan_r (x : float) : mul x S754_nan = S754_nan.
Proof. destruct x; reflexivity. Qed.

Lemma sub_nan_r (x : float) : sub x S754_nan = S754_nan.
Proof. destruct x; reflexivity. Qed.

Lemma gtb_nan_l (x : float) : gtb S754_nan x = false.
Proof. destruct x; reflexivity. Qed.

Lemma leb_nan_l (x : float) : leb S754_nan x = false.
Proof. reflexivity. Qed.

(** Rounding does not look at the sign. *)
Lemma binary_round_aux_opp (s : bool) (m e : Z) (l : location) :
  binary_round_aux prec emax (negb s) m e l
  = SFopp (binary_round_aux prec emax s m e l).
Proof.
  unfold binary_round_aux.
  destruct (shr_fexp prec emax m e l) as [mrs' e'].
  destruct (shr_fexp prec emax _ e' loc_Exact) as [mrs'' e''].
  destruct (shr_m mrs'') as [| p | p]; try reflexivity.
  destruct (Z.leb e'' (Z.sub emax prec)); reflexivity.
Qed.

Lemma mul_opp_r (x y : float) : mul x (SFopp y) = SFopp (mul x y).
Proof.
  unfold mul.
  destruct x as [sx | sx | | sx mx ex], y as [sy | sy | | sy my ey];
    simpl; rewrite <- ?negb_xorb_r; try reflexivity.
  apply binary_round_aux_opp.
Qed.

Lemma div_opp_l (x y : float) : div (SFopp x) y = SFopp (div x y).
Proof.
  unfold div.
  destruct x as [sx | sx | | sx mx ex], y as [sy | sy | | sy my ey];
    simpl; rewrite <- ?negb_xorb_l; try reflexivity.
  destruct (SFdiv_core_binary prec emax (Z.pos mx) ex (Z.pos my) ey) as [[mz ez] lz].
  apply binary_round_aux_opp.
Qed.

Lemma abs_opp (y : float) : abs (SFopp y) = abs y.
Proof. destruct y; reflexivity. Qed.

End Binary64More.

(** X19. In binary64 every stress of the degenerate hollow section (the
    one [sectionProps] returns when [R_i >= R_o]) is [Infinity],
    [-Infinity] or [NaN], whatever the loads, the first moment and the
    ordinate. *)
Theorem degenerate_hollow_all_nonfinite
    (R_o Q : Binary64.float) (l : Loads Binary64.float) (y : Binary64.float) :
  let s := Binary64.stresses (Binary64.degenerateHollowProps R_o) Q l y in
  Binary64.nonFinite (axial s) /\
  Binary64.nonFinite (bending s) /\
  Binary64.nonFinite (torsionalShear s) /\
  Binary64.nonFinite (transverseShear s).
Proof.
  cbv zeta. unfold Binary64.stresses, computeStresses;
    cbn [axial bending torsionalShear transverseShear].
  unfold axialStressSI, bendingStressSI, torsionalShearSI, transverseShearSI.
  repeat split; apply Binary64Facts.div_zero_r; reflexivity.
Qed.

(** X20. In binary64 a stress is [NaN] as soon as one of the numbers it is
    computed from is [NaN]: its load, the ordinate (for bending and
    torsion), the first moment (for transverse shear) or the section
    property it is divided by. *)
Theorem nan_propagates
    (p : SectionProps Binary64.float) (Q : Binary64.float)
    (l : Loads Binary64.float) (y : Binary64.float) :
  let s := Binary64.stresses p Q l y in
  (forceSI l = S754_nan \/ area p = S754_nan -> axial s = S754_nan) /\
  (momentSI l = S754_nan \/ y = S754_nan \/ inertia p = S754_nan ->
     bending s = S754_nan) /\
  (torqueSI l = S754_nan \/ y = S754_nan \/ polarInertia p = S754_nan ->
     torsionalShear s = S754_nan) /\
  (shearForceSI l = S754_nan \/ Q = S754_nan \/ inertia p = S754_nan \/
   shearThickness p = S754_nan -> transverseShear s = S754_nan).
Proof.
  cbv zeta. unfold Binary64.stresses, computeStresses;
    cbn [axial bending torsionalShear transverseShear].
  unfold axialStressSI, bendingStressSI, torsionalShearSI, transverseShearSI.
  repeat split.
  - intros [-> | ->];
      [reflexivity | apply Binary64Facts.div_nan_r].
  - intros [-> | [-> | ->]].
    + reflexivity.
    + rewrite Binary64More.mul_nan_r. reflexivity.
    + apply Binary64Facts.div_nan_r.
  - intros [-> | [-> | ->]].
    + reflexivity.
    + change (Binary64.abs S754_nan) with S754_nan.
      rewrite Binary64More.mul_nan_r. reflexivity.
    + apply Binary64Facts.div_nan_r.
  - intros [-> | [-> | [-> | ->]]].
    + reflexivity.
    + rewrite Binary64More.mul_nan_r. reflexivity.
    + rewrite (Binary64More.mul_nan_l (shearThickness p)). apply Binary64Facts.div_nan_r.
    + rewrite (Binary64More.mul_nan_r (inertia p)).
      apply Binary64Facts.div_nan_r.
Qed.

Lemma nan_propagates_witness :
  let p := {| area := Binary64.of_Z 2; inertia := Binary64.of_Z 3;
              polarInertia := Binary64.of_Z 4; outerRadius := Binary64.of_Z 1;
              shearThickness := Binary64.of_Z 1 |} in
  let l := {| forceSI := Binary64.of_Z 1000; momentSI := Binary64.of_Z 1000;
              torqueSI := Binary64.of_Z 1000; shearForceSI := Binary64.of_Z 500 |} in
  bending (Binary64.stresses p Binary64.zero l S754_nan) = S754_nan /\
  torsionalShear (Binary64.stresses p Binary64.zero l S754_nan) = S754_nan.
Proof.
  intros p l.
  pose proof (nan_propagates p Binary64.zero l S754_nan) as (_ & Hb & Ht & _).
  split.
  - apply Hb. right; left; reflexivity.
  - apply Ht. right; left; reflexivity.
Defined.

(** X21. In binary64, exactly: changing the sign of the ordinate changes
    the sign of the bending stress and leaves the torsional shear
    unchanged, for all properties, loads and ordinates, finite or not. *)
Theorem bending_is_odd_binary64
    (p : SectionProps Binary64.float) (Q : Binary64.float)
    (l : Loads Binary64.float) (y : Binary64.float) :
  bending (Binary64.stresses p Q l (SFopp y))
    = SFopp (bending (Binary64.stresses p Q l y)) /\
  torsionalShear (Binary64.stresses p Q l (SFopp y))
    = torsionalShear (Binary64.stresses p Q l y).
Proof.
  unfold Binary64.stresses, computeStresses; cbn [bending torsionalShear].
  unfold bendingStressSI, torsionalShearSI. split.
  - rewrite Binary64More.mul_opp_r, Binary64More.div_opp_l. reflexivity.
  - rewrite Binary64More.abs_opp. reflexivity.
Qed.

(** X22. In binary64 the I-beam case of [Q_point] returns [NaN] when the
    ordinate is [NaN]: both guards are false on [NaN], so the flange arm is
    taken and [NaN] flows through it. *)
Theorem Q_point_iBeam_nan (h tf bf tw : Binary64.float) :
  Binary64.Q_point_iBeam h tf bf tw S754_nan = S754_nan.
Proof.
  unfold Binary64.Q_point_iBeam.
  change (Binary64.abs S754_nan) with S754_nan.
  rewrite Binary64More.gtb_nan_l, Binary64More.leb_nan_l.
  cbv zeta. rewrite Binary64More.sub_nan_r, Binary64More.mul_nan_r.
  reflexivity.
Qed.

(* ================================================================= *)
(** ** Where the first moment vanishes, and the divisors *)

Open Scope R_scope.

Lemma pow_3_2_pos (x : R) : 0 < x -> 0 < pow_3_2 x.
Proof.
  intros Hx. unfold pow_3_2.
  apply Rmult_lt_0_compat; [assumption | now apply sqrt_lt_R0].
Qed.

Lemma pow_3_2_lt (x y : R) : 0 <= x -> x < y -> pow_3_2 x < pow_3_2 y.
Proof.
  intros Hx Hxy. unfold pow_3_2.
  assert (Hsy : 0 < sqrt y) by (apply sqrt_lt_R0; lra).
  assert (Hs : sqrt x <= sqrt y) by (apply sqrt_le_1_alt; lra).
  assert (x * sqrt x <= x * sqrt y) by (apply Rmult_le_compat_l; assumption).
  assert (x * sqrt y < y * sqrt y) by (apply Rmult_lt_compat_r; assumption).
  lra.
Qed.

Lemma Q_point_positive_inside (sectionType : string) (d : Dims) (y : R) :
  valid_dims sectionType d ->
  Rabs y < outerRadius (sectionProps sectionType d) ->
  0 < Q_point sectionType d y.
Proof.
  pose proof (Rabs_pos y) as Hy0.
  intros [(-> & Hb & Hh) | [(-> & Hd) | [(-> & Hi & Hio) | (-> & Hv)]]].
  - rewrite sectionProps_rectangle; simpl outerRadius. intros Hy.
    rewrite Q_point_rectangle_eq.
    destruct (Rgt_dec _ _) as [Hgt | _]; [lra |].
    assert (y ^ 2 < (rectHeightSI d / 2) ^ 2).
    { rewrite !pow_2_mul, <- (Rabs_mul_self y). nra. }
    apply Rmult_lt_0_compat; lra.
  - rewrite sectionProps_circle; simpl outerRadius. intros Hy.
    rewrite Q_point_circle_eq.
    destruct (Rgt_dec _ _) as [Hgt | _]; [lra |].
    assert (y ^ 2 < (circleDiameterSI d / 2) ^ 2).
    { rewrite !pow_2_mul, <- (Rabs_mul_self y). nra. }
    assert (0 < pow_3_2 ((circleDiameterSI d / 2) ^ 2 - y ^ 2))
      by (apply pow_3_2_pos; lra).
    lra.
  - rewrite sectionProps_hollow_regular by assumption; simpl outerRadius.
    intros Hy. rewrite Q_point_hollowCircle_eq.
    destruct (Rgt_dec _ _) as [Hgt | _]; [lra |].
    assert (Ho : y ^ 2 < hollowOuterSI d ^ 2).
    { rewrite !pow_2_mul, <- (Rabs_mul_self y). nra. }
    destruct (Rle_dec _ _) as [Hle | _].
    + apply Rabs_sqr_le in Hle.
      assert (pow_3_2 (hollowInnerSI d ^ 2 - y ^ 2)
              < pow_3_2 (hollowOuterSI d ^ 2 - y ^ 2))
        by (apply pow_3_2_lt; nra).
      lra.
    + assert (0 < pow_3_2 (hollowOuterSI d ^ 2 - y ^ 2))
        by (apply pow_3_2_pos; lra).
      lra.
  - destruct Hv as (Hh & Hbf & Htf & Htw & Hweb).
    rewrite sectionProps_iBeam; simpl outerRadius. intros Hy.
    rewrite Q_point_iBeam_eq. unfold iBeam_web_arm, iBeam_flange_arm; simpl.
    destruct (Rgt_dec _ _) as [Hgt | _]; [lra |].
    destruct (Rle_dec _ _) as [Hw | Hf].
    + assert (0 < iBeamFlangeWidthSI d * iBeamFlangeThickSI d)
        by (apply Rmult_lt_0_compat; assumption).
      assert (0 <= iBeamWebThickSI d *
                   (iBeamDepthSI d / 2 - iBeamFlangeThickSI d - Rabs y) *
                   ((iBeamDepthSI d / 2 - iBeamFlangeThickSI d + Rabs y) / 2))
        by (repeat apply Rmult_le_pos; lra).
      lra.
    + repeat apply Rmult_lt_0_compat; lra.
Qed.

(** X23. For valid dimensions the first moment is zero exactly from the
    outer fibre on: [Q_point = 0] if and only if [|y| >= outerRadius]; it
    is positive strictly inside the section. *)
Theorem Q_point_zero_iff (sectionType : string) (d : Dims) (y : R) :
  valid_dims sectionType d ->
  (Q_point sectionType d y = 0 <->
   outerRadius (sectionProps sectionType d) <= Rabs y).
Proof.
  intros Hv. split.
  - intros HQ.
    destruct (Rle_dec (outerRadius (sectionProps sectionType d)) (Rabs y))
      as [Hle | Hlt]; [exact Hle |].
    apply Rnot_le_lt in Hlt.
    pose proof (Q_point_positive_inside _ _ _ Hv Hlt). lra.
  - intros [Hlt | Heq].
    + now apply Q_point_outside.
    + destruct (sectionProps_positive _ _ Hv) as (_ & _ & _ & Hr).
      rewrite <- (Q_point_Rabs _ _ y), <- Heq.
      now apply Q_point_at_outerRadius.
Qed.

Lemma Q_point_zero_iff_witness :
  valid_dims "rectangle" (rect_dims 1 2) /\
  (Q_point "rectangle" (rect_dims 1 2) 1 = 0 <->
   outerRadius (sectionProps "rectangle" (rect_dims 1 2)) <= Rabs 1).
Proof.
  assert (Hv : valid_dims "rectangle" (rect_dims 1 2)).
  { left. split; [reflexivity |]. unfold valid_rectangle; simpl; lra. }
  split; [exact Hv |].
  exact (Q_point_zero_iff "rectangle" (rect_dims 1 2) 1 Hv).
Defined.

(** X24. For valid dimensions no stress formula divides by zero: the area,
    the inertia, the polar inertia and the product
    [inertia * shearThickness] are all positive. *)
Theorem divisors_positive (sectionType : string) (d : Dims) :
  valid_dims sectionType d ->
  let p := sectionProps sectionType d in
  0 < area p /\ 0 < inertia p /\ 0 < polarInertia p /\
  0 < inertia p * shearThickness p.
Proof.
  intros Hv p.
  destruct (sectionProps_positive _ _ Hv) as (HA & HI & HJ & _).
  pose proof (shearThickness_positive _ _ Hv) as Ht.
  repeat split; try assumption.
  apply Rmult_lt_0_compat; assumption.
Qed.

Lemma divisors_positive_witness :
  let p := sectionProps "hollowCircle" (hollow_dims 2 1) in
  valid_dims "hollowCircle" (hollow_dims 2 1) /\
  0 < area p /\ 0 < inertia p /\ 0 < polarInertia p /\
  0 < inertia p * shearThickness p.
Proof.
  intros p.
  assert (Hv : valid_dims "hollowCircle" (hollow_dims 2 1)).
  { right; right; left. split; [reflexivity |].
    unfold valid_hollowCircle; simpl; lra. }
  split; [exact Hv |].
  exact (divisors_positive "hollowCircle" (hollow_dims 2 1) Hv).
Defined.

Close Scope R_scope.

(** X25. In binary64, on the neutral axis ([y = 0]) the bending stress and
    the torsional shear are a zero, for every finite load and every
    divisor that is neither a zero nor [NaN]. *)
Theorem neutral_axis_binary64
    (p : SectionProps Binary64.float) (Q : Binary64.float)
    (l : Loads Binary64.float) :
  let s := Binary64.stresses p Q l Binary64.zero in
  (Binary64.isFinite (momentSI l) = true ->
   Binary64.isZero (inertia p) = false -> inertia p <> S754_nan ->
   Binary64.isZero (bending s) = true) /\
  (Binary64.isFinite (torqueSI l) = true ->
   Binary64.isZero (polarInertia p) = false -> polarInertia p <> S754_nan ->
   Binary64.isZero (torsionalShear s) = true).
Proof.
  cbv zeta. unfold Binary64.stresses, computeStresses;
    cbn [bending torsionalShear].
  unfold bendingStressSI, torsionalShearSI.
  split.
  - destruct (momentSI l) as [sm | sm | | sm mm em]; try discriminate 1;
      intros _; destruct (inertia p) as [si | si | | si mi ei];
      try discriminate 1; intros _ Hn; try (now destruct Hn); reflexivity.
  - destruct (torqueSI l) as [sm | sm | | sm mm em]; try discriminate 1;
      intros _; destruct (polarInertia p) as [si | si | | si mi ei];
      try discriminate 1; intros _ Hn; try (now destruct Hn); reflexivity.
Qed.

Lemma neutral_axis_binary64_witness :
  let p := {| area := Binary64.of_Z 2; inertia := Binary64.of_Z 3;
              polarInertia := Binary64.of_Z 4; outerRadius := Binary64.of_Z 1;
              shearThickness := Binary64.of_Z 1 |} in
  let l := {| forceSI := Binary64.of_Z 1000; momentSI := Binary64.of_Z 1000;
              torqueSI := Binary64.of_Z 1000; shearForceSI := Binary64.of_Z 500 |} in
  Binary64.isZero (bending (Binary64.stresses p Binary64.zero l Binary64.zero)) = true /\
  Binary64.isZero (torsionalShear (Binary64.stresses p Binary64.zero l Binary64.zero)) = true.
Proof.
  intros p l.
  pose proof (neutral_axis_binary64 p Binary64.zero l) as [Hb Ht].
  split.
  - apply Hb; [reflexivity | reflexivity | discriminate].
  - apply Ht; [reflexivity | reflexivity | discriminate].
Defined.
